(** * The ingredient aggregation engine of [components/grocery_list.py]

    A shallow embedding of [_parse_quantity], [_try_convert], [_format_qty]
    and [combine_ingredients], and the properties of the engine that the
    specification states about them.

    Python values are modelled as the interpreter has them:
    - a [str] is a sequence of Unicode code points;
    - a [float] is an IEEE 754 binary64 number ([spec_float] with
      [prec = 53] and [emax = 1024], rounding to nearest even);
    - a [Fraction] is a pair of integers in lowest terms;
    - an exception is an explicit [Raise] result. *)

From Stdlib Require Import ZArith NArith List Bool Lia String Ascii.
From Stdlib Require Import Permutation Sorted DecimalString.
From Stdlib Require Import Floats.SpecFloat.
Import ListNotations.

Set Implicit Arguments.

(* ================================================================= *)
(** ** Exceptions *)

Inductive exn := ValueError | ZeroDivisionError | OverflowError.

Inductive result (A : Type) : Type :=
| Ok (a : A)
| Raise (e : exn).
Arguments Ok {A} a.
Arguments Raise {A} e.

Definition bind {A B} (r : result A) (k : A -> result B) : result B :=
  match r with
  | Ok a => k a
  | Raise e => Raise e
  end.

Notation "x <- r ;; k" := (bind r (fun x => k))
  (at level 61, r at next level, right associativity).

(* ================================================================= *)
(** ** Text: [str] as a list of code points *)

Definition char := N.
Definition str := list char.

(** An ASCII literal as a Python string. *)
Definition lit (s : string) : str := map N_of_ascii (list_ascii_of_string s).

Definition str_eqb (a b : str) : bool :=
  if list_eq_dec N.eq_dec a b then true else false.

(** [Py_UNICODE_ISSPACE]: the code points that [str.strip()], [str.split()]
    and the regular expression class [\s] treat as white space. *)
Definition is_space (c : char) : bool :=
  ((0x09 <=? c) && (c <=? 0x0D) || (0x1C <=? c) && (c <=? 0x20)
   || (c =? 0x85) || (c =? 0xA0) || (c =? 0x1680)
   || (0x2000 <=? c) && (c <=? 0x200A)
   || (c =? 0x2028) || (c =? 0x2029) || (c =? 0x202F) || (c =? 0x205F)
   || (c =? 0x3000))%N.

(** The part of the Unicode character database that is not written out
    here: the decimal digits outside ASCII (general category Nd, with their
    values) and lowercasing of text that is not pure ASCII. *)
Class UnicodeData := {
  ucd_decimal : char -> option Z;
  ucd_lower : str -> str
}.

(** A database without any non-ASCII digit or case mapping. *)
Definition ascii_only : UnicodeData :=
  {| ucd_decimal := fun _ => None; ucd_lower := fun s => s |}.

Section Text.
Context {U : UnicodeData}.

(** The value of a decimal digit ([\d], and the digits [int()] accepts). *)
Definition decimal_value (c : char) : option Z :=
  if (c <? 128)%N then
    if ((48 <=? c) && (c <=? 57))%N then Some (Z.of_N c - 48)%Z else None
  else ucd_decimal c.

Definition is_decimal (c : char) : bool :=
  match decimal_value c with Some _ => true | None => false end.

Definition is_ascii (c : char) : bool := (c <? 128)%N.

Definition ascii_lower (c : char) : char :=
  if ((65 <=? c) && (c <=? 90))%N then (c + 32)%N else c.

(** [str.lower()]. *)
Definition lower (s : str) : str :=
  if forallb is_ascii s then map ascii_lower s else ucd_lower s.

(** [[a-zA-Z.]] *)
Definition is_unit_char (c : char) : bool :=
  ((97 <=? c) && (c <=? 122) || (65 <=? c) && (c <=? 90) || (c =? 46))%N.

End Text.

Fixpoint drop_while (p : char -> bool) (s : str) : str :=
  match s with
  | [] => []
  | c :: s' => if p c then drop_while p s' else s
  end.

Fixpoint take_while (p : char -> bool) (s : str) : str :=
  match s with
  | [] => []
  | c :: s' => if p c then c :: take_while p s' else []
  end.

Definition lstrip_by (p : char -> bool) (s : str) : str := drop_while p s.
Definition rstrip_by (p : char -> bool) (s : str) : str :=
  rev (drop_while p (rev s)).
Definition strip_by (p : char -> bool) (s : str) : str :=
  rstrip_by p (lstrip_by p s).

(** [s.strip()] *)
Definition strip (s : str) : str := strip_by is_space s.

Definition mem_char (cs : str) (c : char) : bool := existsb (N.eqb c) cs.

(** [s.strip(cs)] and [s.rstrip(cs)] *)
Definition strip_chars (cs : str) (s : str) : str := strip_by (mem_char cs) s.
Definition rstrip_chars (cs : str) (s : str) : str := rstrip_by (mem_char cs) s.

(** [s.split()]: the maximal runs of non-space code points. *)
Fixpoint split_from (cur : str) (s : str) : list str :=
  match s with
  | [] => match cur with [] => [] | _ => [rev cur] end
  | c :: s' =>
      if is_space c then
        match cur with
        | [] => split_from [] s'
        | _ => rev cur :: split_from [] s'
        end
      else split_from (c :: cur) s'
  end.

Definition split (s : str) : list str := split_from [] s.

(** [s.replace(old, new)] for a pattern [old] of one code point. *)
Definition replace (old : char) (new : str) (s : str) : str :=
  flat_map (fun c => if (c =? old)%N then new else [c]) s.

(** [dict.get(k)] on a dict literal with string keys. *)
Fixpoint dict_get {V} (d : list (str * V)) (k : str) : option V :=
  match d with
  | [] => None
  | (k', v) :: d' => if str_eqb k k' then Some v else dict_get d' k
  end.

(** Comparison of strings: lexicographic on code points. *)
Fixpoint str_leb (a b : str) : bool :=
  match a, b with
  | [], _ => true
  | _ :: _, [] => false
  | x :: a', y :: b' =>
      if (x <? y)%N then true else if (x =? y)%N then str_leb a' b' else false
  end.

(** [str(n)] for an [int]. *)
Definition str_of_int (n : Z) : str := lit (NilZero.string_of_int (Z.to_int n)).

(* ================================================================= *)
(** ** [float]: IEEE 754 binary64 *)

Definition float := spec_float.
Definition prec : Z := 53.
Definition emax : Z := 1024.

Definition float_add : float -> float -> float := SFadd prec emax.
Definition float_mul : float -> float -> float := SFmul prec emax.
(** [x / y] for a divisor that is not zero. *)
Definition float_div : float -> float -> float := SFdiv prec emax.

(** The float of an integer literal such as [3.0]. *)
Definition float_of_Z (z : Z) : float := binary_normalize prec emax z 0 false.

Definition float_zero : float := S754_zero false.

Definition is_finite (x : float) : bool :=
  match x with
  | S754_zero _ | S754_finite _ _ _ => true
  | _ => false
  end.

(* ================================================================= *)
(** ** [fractions.Fraction] *)

Record Fraction := mkFraction { numerator : Z; denominator : Z }.

(** [Fraction(n, d)] for [d <> 0]: lowest terms, positive denominator. *)
Definition Fraction_of (n d : Z) : Fraction :=
  let g := Z.gcd n d in
  let g := if (d <? 0)%Z then (- g)%Z else g in
  {| numerator := (n / g)%Z; denominator := (d / g)%Z |}.

(** [a + b]; the library reduces with a gcd shortcut, the value and its
    lowest terms are those of the schoolbook sum. *)
Definition Fraction_add (a b : Fraction) : Fraction :=
  Fraction_of (numerator a * denominator b + numerator b * denominator a)
              (denominator a * denominator b).

(** [a - n] for an [int] [n]. *)
Definition Fraction_sub_int (a : Fraction) (n : Z) : Fraction :=
  Fraction_of (numerator a - n * denominator a) (denominator a).

(** [str(f)] *)
Definition str_of_Fraction (f : Fraction) : str :=
  if (denominator f =? 1)%Z then str_of_int (numerator f)
  else str_of_int (numerator f) ++ lit "/" ++ str_of_int (denominator f).

(** [float(f)]: the true division [numerator / denominator] of two ints,
    correctly rounded; a quotient beyond the largest float raises. *)
Definition int_truediv (s : bool) (n d : Z) : result float :=
  let '(mz, ez, lz) := SFdiv_core_binary prec emax n 0 d 0 in
  match binary_round_aux prec emax s mz ez lz with
  | S754_infinity _ => Raise OverflowError
  | x => Ok x
  end.

Definition float_of_Fraction (f : Fraction) : result float :=
  match numerator f with
  | Z0 => Ok float_zero
  | Zpos n => int_truediv false (Zpos n) (denominator f)
  | Zneg n => int_truediv true (Zpos n) (denominator f)
  end.

Section FractionParsing.
Context {U : UnicodeData}.

(** [int(s)] on a run of decimal digits, accumulated from [acc]. *)
Fixpoint digits_value (acc : Z) (s : str) : option Z :=
  match s with
  | [] => Some acc
  | c :: s' =>
      match decimal_value c with
      | Some v => digits_value (10 * acc + v)%Z s'
      | None => None
      end
  end.

(** The interpreter's default limit on the digits of a string that [int]
    converts ([sys.get_int_max_str_digits()]); a longer run of digits is a
    [ValueError]. *)
Definition int_max_str_digits : Z := 4300.

Definition int_of_run (s : str) : option Z :=
  if (int_max_str_digits <? Z.of_nat (List.length s))%Z then None
  else digits_value 0 s.

Definition int_of_digits (s : str) : option Z :=
  match s with
  | [] => None
  | _ => int_of_run s
  end.

(** [Fraction(p)] for a token [p] of the quantity: after
    [_QTY_RE] and [split()] a token holds decimal digits, ['/'] and ['.']
    only, so of the library's grammar the forms [digits], [digits/digits],
    [digits.digits], [digits.] and [.digits] remain; anything else does
    not match ([ValueError]), a run of digits over the limit of [int] is a
    [ValueError] too, and a zero denominator is [ZeroDivisionError]. *)
Definition Fraction_of_str (p : str) : result Fraction :=
  let num := take_while is_decimal p in
  match drop_while is_decimal p with
  | [] =>
      match int_of_digits num with
      | Some n => Ok (Fraction_of n 1)
      | None => Raise ValueError
      end
  | c :: tail =>
      if (c =? 47)%N then
        match int_of_digits num, int_of_digits tail with
        | Some n, Some d =>
            if (d =? 0)%Z then Raise ZeroDivisionError else Ok (Fraction_of n d)
        | _, _ => Raise ValueError
        end
      else if (c =? 46)%N then
        match num, tail with
        | [], [] => Raise ValueError
        | _, _ =>
            match int_of_run num, int_of_run tail with
            | Some n, Some d =>
                let scale := (10 ^ Z.of_nat (List.length tail))%Z in
                Ok (Fraction_of (n * scale + d) scale)
            | _, _ => Raise ValueError
            end
        end
      else Raise ValueError
  end.

(** [sum(Fraction(p) for p in parts)], from the accumulator [acc]. *)
Fixpoint sum_Fractions (acc : Fraction) (parts : list str) : result Fraction :=
  match parts with
  | [] => Ok acc
  | p :: parts' =>
      f <- Fraction_of_str p ;;
      sum_Fractions (Fraction_add acc f) parts'
  end.

End FractionParsing.

(* ================================================================= *)
(** ** The tables *)

Definition UNIT_ALIASES : list (str * str) :=
  map (fun '(k, v) => (lit k, lit v))
  [ ("tablespoon", "tbsp"); ("tablespoons", "tbsp"); ("tbsps", "tbsp");
    ("tbs", "tbsp"); ("T", "tbsp");
    ("teaspoon", "tsp"); ("teaspoons", "tsp"); ("tsps", "tsp"); ("t", "tsp");
    ("cup", "cup"); ("cups", "cup"); ("c", "cup");
    ("ounce", "oz"); ("ounces", "oz");
    ("pound", "lb"); ("pounds", "lb"); ("lbs", "lb");
    ("gram", "g"); ("grams", "g");
    ("kilogram", "kg"); ("kilograms", "kg");
    ("milliliter", "ml"); ("milliliters", "ml"); ("millilitres", "ml");
    ("liter", "l"); ("liters", "l"); ("litres", "l"); ("litre", "l");
    ("pinch", "pinch"); ("pinches", "pinch");
    ("clove", "clove"); ("cloves", "clove");
    ("can", "can"); ("cans", "can");
    ("bunch", "bunch"); ("bunches", "bunch");
    ("slice", "slice"); ("slices", "slice");
    ("piece", "piece"); ("pieces", "piece") ]%string.

Definition CONVERTIBLE : list ((str * str) * float) :=
  [ ((lit "tsp", lit "tbsp"), float_of_Z 3);
    ((lit "tbsp", lit "cup"), float_of_Z 16);
    ((lit "g", lit "kg"), float_of_Z 1000);
    ((lit "ml", lit "l"), float_of_Z 1000);
    ((lit "oz", lit "lb"), float_of_Z 16) ].

(** The vulgar-fraction glyphs, by code point, with their ASCII forms. *)
Definition _VULGAR_MAP : list (char * str) :=
  [ (0xBD, lit "1/2"); (0x2153, lit "1/3"); (0x2154, lit "2/3");
    (0xBC, lit "1/4"); (0xBE, lit "3/4");
    (0x2155, lit "1/5"); (0x2156, lit "2/5"); (0x2157, lit "3/5");
    (0x2158, lit "4/5");
    (0x2159, lit "1/6"); (0x215A, lit "5/6");
    (0x215B, lit "1/8"); (0x215C, lit "3/8"); (0x215D, lit "5/8");
    (0x215E, lit "7/8") ]%N.

(* ================================================================= *)
(** ** The quantity parser *)

Section Parser.
Context {U : UnicodeData}.

Definition is_vulgar (c : char) : bool :=
  mem_char [0xBD; 0x2153; 0x2154; 0xBC; 0xBE; 0x2155; 0x2156; 0x2157;
            0x2158; 0x2159; 0x215A; 0x215B; 0x215C; 0x215D; 0x215E]%N c.

(** The character class of the quantity group of [_QTY_RE]. *)
Definition is_qty_char (c : char) : bool :=
  is_decimal c || is_space c || (c =? 47)%N || is_vulgar c || (c =? 46)%N.

(** [_QTY_RE.match(s)], giving groups 1, 2 and 3.  Every quantifier is
    greedy and everything after group 1 can match the empty string, so the
    first attempt of the backtracking matcher succeeds whenever group 1 finds
    a character; the white space of [^\s*] gives back its last character
    to group 1 when nothing else is there for it.  The dot of group 3 does
    not match a line feed. *)
Definition _QTY_RE_match (s : str) : option (str * option str * str) :=
  let ws := take_while is_space s in
  let r := drop_while is_space s in
  let start :=
    match take_while is_qty_char r with
    | (_ :: _) as run => Some (run, drop_while is_qty_char r)
    | [] =>
        match rev ws with
        | c :: _ => Some ([c], r)
        | [] => None
        end
    end in
  match start with
  | None => None
  | Some (g1, after) =>
      let g2 := take_while is_unit_char after in
      let after2 := drop_while is_space (drop_while is_unit_char after) in
      let g3 := take_while (fun c => negb (c =? 10)%N) after2 in
      Some (g1, match g2 with [] => None | _ => Some g2 end, g3)
  end.

(** The loop over [_VULGAR_MAP.items()]. *)
Definition replace_vulgar (raw_qty : str) : str :=
  fold_left (fun acc '(vf, frac) => replace vf frac acc) _VULGAR_MAP raw_qty.

(** The body of the [try]: [float(sum(Fraction(p) for p in parts))]. *)
Definition eval_quantity (raw_qty : str) : result float :=
  f <- sum_Fractions (mkFraction 0 1) (split raw_qty) ;;
  float_of_Fraction f.

Definition normalize_unit (raw_unit : str) : str :=
  match dict_get UNIT_ALIASES raw_unit with
  | Some u => u
  | None =>
      match dict_get UNIT_ALIASES (lower raw_unit) with
      | Some u => u
      | None => lower raw_unit
      end
  end.

Definition ParsedQuantity : Type := float * str * str.

Definition _parse_quantity (text : str) : result ParsedQuantity :=
  match _QTY_RE_match (strip text) with
  | None => Ok (float_zero, [], strip text)
  | Some (g1, g2, g3) =>
      let raw_qty := strip g1 in
      let raw_unit :=
        rstrip_chars (lit ".")
          (strip match g2 with Some u => u | None => [] end) in
      let name := strip g3 in
      let raw_qty := replace_vulgar raw_qty in
      match eval_quantity raw_qty with
      | Raise ValueError | Raise ZeroDivisionError =>
          Ok (float_zero, [], strip text)
      | Raise e => Raise e
      | Ok qty =>
          let unit := normalize_unit raw_unit in
          let name := strip_chars [32; 44; 46; 45; 9]%N name in
          match name, raw_unit with
          | [], _ :: _ => Ok (qty, [], raw_unit)
          | _, _ => Ok (qty, unit, name)
          end
      end
  end.

End Parser.

(* ================================================================= *)
(** ** The unit converter *)

Definition unit_pair_eqb (a b : str * str) : bool :=
  str_eqb (fst a) (fst b) && str_eqb (snd a) (snd b).

(** [CONVERTIBLE.get(key)] *)
Fixpoint table_get (t : list ((str * str) * float)) (key : str * str)
  : option float :=
  match t with
  | [] => None
  | (k, v) :: t' => if unit_pair_eqb key k then Some v else table_get t' key
  end.

Definition _try_convert (qty : float) (from_unit to_unit : str) : option float :=
  if str_eqb from_unit to_unit then Some qty
  else
    match table_get CONVERTIBLE (from_unit, to_unit) with
    | Some factor => Some (float_div qty factor)
    | None =>
        match table_get CONVERTIBLE (to_unit, from_unit) with
        | Some factor => Some (float_mul qty factor)
        | None => None
        end
    end.

(* ================================================================= *)
(** ** The quantity formatter *)

(** [Fraction(x)] for a float: the exact value, which does not exist for
    an infinity or a NaN. *)
Definition Fraction_of_float (x : float) : result Fraction :=
  match x with
  | S754_nan => Raise ValueError
  | S754_infinity _ => Raise OverflowError
  | S754_zero _ => Ok (mkFraction 0 1)
  | S754_finite s m e =>
      if (0 <=? e)%Z then Ok (mkFraction (cond_Zopp s (Zpos m * 2 ^ e)) 1)
      else Ok (Fraction_of (cond_Zopp s (Zpos m)) (2 ^ (- e)))
  end.

(** [int(x)]: truncation towards zero. *)
Definition int_of_float (x : float) : result Z :=
  match x with
  | S754_nan => Raise ValueError
  | S754_infinity _ => Raise OverflowError
  | S754_zero _ => Ok 0%Z
  | S754_finite s m e => Ok (cond_Zopp s (Z.shiftl (Zpos m) e))
  end.

(** [x == n] for a float and an int: the comparison is exact. *)
Definition float_eqb_int (x : float) (n : Z) : bool :=
  match Fraction_of_float x with
  | Ok f => (denominator f =? 1)%Z && (numerator f =? n)%Z
  | Raise _ => false
  end.

Definition Fraction_sub (a b : Fraction) : Fraction :=
  Fraction_of (numerator a * denominator b - numerator b * denominator a)
              (denominator a * denominator b).

Definition Fraction_abs (a : Fraction) : Fraction :=
  mkFraction (Z.abs (numerator a)) (denominator a).

Definition Fraction_leb (a b : Fraction) : bool :=
  (numerator a * denominator b <=? numerator b * denominator a)%Z.

(** The [while True] loop of [limit_denominator], run for at most [fuel]
    iterations; [None] when the loop has not left by then.  It leaves by
    [break] with the two last convergents, or by the division [n // d]
    raising. *)
Fixpoint limit_loop (fuel : nat) (max_denominator p0 q0 p1 q1 n d : Z)
  : option (result (Z * Z * Z * Z)) :=
  match fuel with
  | O => None
  | S fuel' =>
      if (d =? 0)%Z then Some (Raise ZeroDivisionError)
      else
        let a := (n / d)%Z in
        let q2 := (q0 + a * q1)%Z in
        if (max_denominator <? q2)%Z then Some (Ok (p0, q0, p1, q1))
        else limit_loop fuel' max_denominator
                        p1 q1 (p0 + a * p1)%Z q2 d (n - a * d)%Z
  end.

(** [self.limit_denominator(max_denominator)].  The denominators of the
    convergents grow by at least one from the third iteration on, so
    [max_denominator + 2] iterations are enough for the loop to leave. *)
Definition limit_denominator (max_denominator : Z) (self : Fraction)
  : option (result Fraction) :=
  if (max_denominator <? 1)%Z then Some (Raise ValueError)
  else if (denominator self <=? max_denominator)%Z then Some (Ok self)
  else
    match limit_loop (Z.to_nat max_denominator + 2) max_denominator
                     0 1 1 0 (numerator self) (denominator self) with
    | None => None
    | Some (Raise e) => Some (Raise e)
    | Some (Ok (p0, q0, p1, q1)) =>
        if (q1 =? 0)%Z then Some (Raise ZeroDivisionError)
        else
          let k := ((max_denominator - q0) / q1)%Z in
          if (q0 + k * q1 =? 0)%Z then Some (Raise ZeroDivisionError)
          else
            let bound1 := Fraction_of (p0 + k * p1) (q0 + k * q1) in
            let bound2 := Fraction_of p1 q1 in
            if Fraction_leb (Fraction_abs (Fraction_sub bound2 self))
                            (Fraction_abs (Fraction_sub bound1 self))
            then Some (Ok bound2)
            else Some (Ok bound1)
    end.

(** [f"{x:.2f}"]: two decimals, the exact value rounded half to even. *)
Definition two_digits (n : Z) : str :=
  if (n <? 10)%Z then lit "0" ++ str_of_int n else str_of_int n.

Definition format_2f (x : float) : str :=
  match x with
  | S754_nan => lit "nan"
  | S754_infinity s => if s then lit "-inf" else lit "inf"
  | S754_zero s => if s then lit "-0.00" else lit "0.00"
  | S754_finite s m e =>
      let num := (Zpos m * 100 * 2 ^ Z.max e 0)%Z in
      let den := (2 ^ Z.max (- e) 0)%Z in
      let q := (num / den)%Z in
      let r := (num mod den)%Z in
      let q := if (den <? 2 * r)%Z || ((den =? 2 * r)%Z && Z.odd q)
               then (q + 1)%Z else q in
      (if s then lit "-" else []) ++
      str_of_int (q / 100) ++ lit "." ++ two_digits (q mod 100)
  end.

(** The body of the [try] of [_format_qty]. *)
Definition format_fraction (qty : float) : option (result str) :=
  match Fraction_of_float qty with
  | Raise e => Some (Raise e)
  | Ok x =>
      match limit_denominator 16 x with
      | None => None
      | Some (Raise e) => Some (Raise e)
      | Some (Ok f) =>
          if (denominator f <? numerator f)%Z then
            let whole := (numerator f / denominator f)%Z in
            let rem := Fraction_sub_int f whole in
            if (numerator rem =? 0)%Z then Some (Ok (str_of_int whole))
            else Some (Ok (str_of_int whole ++ lit " " ++ str_of_Fraction rem))
          else Some (Ok (str_of_Fraction f))
      end
  end.

Definition _format_qty (qty : float) : option (result str) :=
  if float_eqb_int qty 0 then Some (Ok [])
  else
    match int_of_float qty with
    | Raise e => Some (Raise e)
    | Ok i =>
        if float_eqb_int qty i then Some (Ok (str_of_int i))
        else
          match format_fraction qty with
          | Some (Raise ValueError) | Some (Raise OverflowError) =>
              Some (Ok (rstrip_chars (lit ".")
                          (rstrip_chars (lit "0") (format_2f qty))))
          | r => r
          end
    end.

(* ================================================================= *)
(** ** The aggregator *)

Record AggregatedItem := mkItem {
  item_name : str;
  item_qty : float;
  item_unit : str;
  raw_sources : list str
}.

(** A recipe, as far as the engine reads it: the value under
    ['ingredients'], when the key is there. *)
Record Recipe := mkRecipe { ingredients : option (list str) }.

(** [recipe.get("ingredients", [])] *)
Definition get_ingredients (r : Recipe) : list str :=
  match ingredients r with Some l => l | None => [] end.

(** The dict [merged], in insertion order. *)
Definition merged_dict := list (str * AggregatedItem).

(** The item under an existing key is mutated in place. *)
Fixpoint dict_update (d : merged_dict) (k : str) (v : AggregatedItem)
  : merged_dict :=
  match d with
  | [] => []
  | (k', v') :: d' =>
      if str_eqb k k' then (k', v) :: d' else (k', v') :: dict_update d' k v
  end.

Definition is_empty (s : str) : bool :=
  match s with [] => true | _ => false end.

(** The branch [if key in merged] for one parsed line. *)
Definition merge_existing (existing : AggregatedItem)
  (qty : float) (unit : str) (line : str) : AggregatedItem :=
  let '(q, u) :=
    if negb (is_empty unit) && negb (is_empty (item_unit existing)) then
      match _try_convert qty unit (item_unit existing) with
      | Some converted =>
          (float_add (item_qty existing) converted, item_unit existing)
      | None =>
          match _try_convert (item_qty existing) (item_unit existing) unit with
          | Some converted_rev => (float_add converted_rev qty, unit)
          | None =>
              (float_add (item_qty existing) qty,
               if str_eqb unit (item_unit existing) then item_unit existing
               else item_unit existing ++ lit "+" ++ unit)
          end
      end
    else
      (float_add (item_qty existing) qty,
       if is_empty (item_unit existing) then unit else item_unit existing)
  in
  {| item_name := item_name existing; item_qty := q; item_unit := u;
     raw_sources := raw_sources existing ++ [line] |}.

Section Aggregator.
Context {U : UnicodeData}.

(** The grouping key of a parsed name. *)
Definition key_of_name (name : str) : str := strip (lower name).

(** One round of the inner loop, on a line that has been parsed. *)
Definition add_parsed (merged : merged_dict) (line : str)
  (p : ParsedQuantity) : merged_dict :=
  let '(qty, unit, name) := p in
  let key := key_of_name name in
  match key with
  | [] => merged
  | _ =>
      match dict_get merged key with
      | Some existing =>
          dict_update merged key (merge_existing existing qty unit line)
      | None =>
          merged ++ [(key, {| item_name := name; item_qty := qty;
                              item_unit := unit; raw_sources := [line] |})]
      end
  end.

Fixpoint for_lines (merged : merged_dict) (lines : list str)
  : result merged_dict :=
  match lines with
  | [] => Ok merged
  | line :: lines' =>
      p <- _parse_quantity line ;;
      for_lines (add_parsed merged line p) lines'
  end.

Fixpoint for_recipes (merged : merged_dict) (recipes : list Recipe)
  : result merged_dict :=
  match recipes with
  | [] => Ok merged
  | recipe :: recipes' =>
      m <- for_lines merged (get_ingredients recipe) ;;
      for_recipes m recipes'
  end.

(** The key of the final sort, [x["name"].lower()]. *)
Definition sort_key (x : AggregatedItem) : str := lower (item_name x).

(** [sorted(values, key=...)]: the sort is stable, so an item goes before
    the first item whose key is not smaller than its own. *)
Fixpoint insert_item (x : AggregatedItem) (l : list AggregatedItem)
  : list AggregatedItem :=
  match l with
  | [] => [x]
  | y :: l' =>
      if str_leb (sort_key x) (sort_key y) then x :: y :: l'
      else y :: insert_item x l'
  end.

Definition sorted (l : list AggregatedItem) : list AggregatedItem :=
  fold_right insert_item [] l.

Definition combine_ingredients (recipes : list Recipe)
  : result (list AggregatedItem) :=
  merged <- for_recipes [] recipes ;;
  Ok (sorted (map snd merged)).

End Aggregator.

(** The recipe whose ['ingredients'] are the given lines. *)
Definition recipe_of (lines : list str) : Recipe := mkRecipe (Some lines).

(** The lines of all recipes, in the order the two loops meet them. *)
Definition all_lines (recipes : list Recipe) : list str :=
  flat_map get_ingredients recipes.

(** *** Vocabulary for the statements about the aggregator *)

Section AggregatorVocabulary.
Context {U : UnicodeData}.

Definition parsed_key (p : ParsedQuantity) : str := key_of_name (snd p).

Definition item_key (x : AggregatedItem) : str := key_of_name (item_name x).

(** The line parses, and its grouping key is [k]. *)
Definition line_has_key (k : str) (line : str) : bool :=
  match _parse_quantity line with
  | Ok p => str_eqb (parsed_key p) k
  | Raise _ => false
  end.

(** No line makes the parser raise. *)
Definition all_parse (lines : list str) : Prop :=
  forall line, In line lines -> exists p, _parse_quantity line = Ok p.

(** The inner loop on lines that have been parsed already. *)
Definition add_all (merged : merged_dict) (ps : list (str * ParsedQuantity))
  : merged_dict :=
  fold_left (fun m lp => add_parsed m (fst lp) (snd lp)) ps merged.

(** The parsed lines of one grouping key, in encounter order. *)
Definition group (k : str) (ps : list (str * ParsedQuantity))
  : list (str * ParsedQuantity) :=
  filter (fun lp => str_eqb (parsed_key (snd lp)) k) ps.

(** What the dict holds once the lines [ps] have gone through the loop. *)
Definition merged_inv (ps : list (str * ParsedQuantity)) (m : merged_dict)
  : Prop :=
  NoDup (map fst m) /\
  (forall k x, In (k, x) m ->
     k <> [] /\ item_key x = k /\
     raw_sources x = map fst (group k ps) /\
     exists l0 p0 rest, group k ps = (l0, p0) :: rest /\ item_name x = snd p0) /\
  (forall lp, In lp ps -> parsed_key (snd lp) <> [] ->
     In (parsed_key (snd lp)) (map fst m)).

(** Ascending order of the sort keys. *)
Definition key_le (x y : AggregatedItem) : Prop :=
  str_leb (sort_key x) (sort_key y) = true.

End AggregatorVocabulary.

(** A quantity of 310 digits, 10 to the power 309. *)
Definition huge_quantity_line : str :=
  lit "1" ++ repeat 48%N 309 ++ lit " cups flour".

(** *** One item, replayed from the lines of its key *)

Section Replay.
Context {U : UnicodeData}.

(** The lines that parse, each with its parse. *)
Definition parsed_lines (lines : list str) : list (str * ParsedQuantity) :=
  flat_map (fun line =>
              match _parse_quantity line with
              | Ok p => [(line, p)]
              | Raise _ => []
              end) lines.

(** The item that the [else] branch of the loop creates. *)
Definition new_item (line : str) (p : ParsedQuantity) : AggregatedItem :=
  let '(qty, unit, name) := p in
  {| item_name := name; item_qty := qty; item_unit := unit;
     raw_sources := [line] |}.

Definition merge_parsed (existing : AggregatedItem)
  (lp : str * ParsedQuantity) : AggregatedItem :=
  let '(qty, unit, _) := snd lp in
  merge_existing existing qty unit (fst lp).

(** The first line creates the item, the later ones are merged into it. *)
Definition replay (g : list (str * ParsedQuantity)) : option AggregatedItem :=
  match g with
  | [] => None
  | (l0, p0) :: rest => Some (fold_left merge_parsed rest (new_item l0 p0))
  end.

Definition parsed_qty (p : ParsedQuantity) : float := fst (fst p).
Definition parsed_unit (p : ParsedQuantity) : str := snd (fst p).

End Replay.

(** *** Vocabulary for the statements about the formatter *)

(** [f] has a denominator within the bound and is at least as close to [x]
    as any fraction [p/q] with a denominator within the bound (the two
    distances are compared after multiplying by the denominators). *)
Definition best_approximation (max_denominator : Z) (x f : Fraction) : Prop :=
  (1 <= denominator f <= max_denominator)%Z /\
  forall p q : Z, (1 <= q <= max_denominator)%Z ->
    (Z.abs (numerator x * denominator f - numerator f * denominator x) * q
     <= Z.abs (numerator x * q - p * denominator x) * denominator f)%Z.

(* ================================================================= *)
(** ** [scraper.py]: the JSON-LD search *)

(** The values [json.loads] returns; a dict keeps its entries in
    insertion order. *)
#[warnings="-register-all"] Inductive json :=
| JNull
| JBool (b : bool)
| JInt (n : Z)
| JFloat (x : float)
| JStr (s : str)
| JList (l : list json)
| JDict (d : list (str * json)).

(** The one exception the two helpers of the scraper can raise. *)
Inductive scraper_exn := TypeError.

Inductive outcome (A : Type) : Type :=
| Return (a : A)
| Throw (e : scraper_exn).
Arguments Return {A} a.
Arguments Throw {A} e.

(** [bool(v)] *)
Definition truthy (v : json) : bool :=
  match v with
  | JNull => false
  | JBool b => b
  | JInt n => negb (n =? 0)%Z
  | JFloat x => match x with S754_zero _ => false | _ => true end
  | JStr s => negb (is_empty s)
  | JList l => match l with [] => false | _ => true end
  | JDict d => match d with [] => false | _ => true end
  end.

(** [if result:] for a result that is a value or [None]. *)
Definition truthy_result (r : option json) : bool :=
  match r with
  | Some v => truthy v
  | None => false
  end.

Fixpoint is_prefix (p s : str) : bool :=
  match p, s with
  | [], _ => true
  | _ :: _, [] => false
  | x :: p', y :: s' => (x =? y)%N && is_prefix p' s'
  end.

(** [needle in hay] for two strings. *)
Fixpoint str_contains (needle hay : str) : bool :=
  is_prefix needle hay
  || match hay with
     | [] => false
     | _ :: hay' => str_contains needle hay'
     end.

(** [sep.join(parts)] *)
Fixpoint str_join (sep : str) (parts : list str) : str :=
  match parts with
  | [] => []
  | [s] => s
  | s :: rest => s ++ sep ++ str_join sep rest
  end.

(** The items of a list when all of them are strings. *)
Fixpoint all_strs (l : list json) : option (list str) :=
  match l with
  | [] => Some []
  | JStr s :: l' =>
      match all_strs l' with
      | Some ss => Some (s :: ss)
      | None => None
      end
  | _ :: _ => None
  end.

(** [data.get("@type", "")] *)
Definition schema_type_of (d : list (str * json)) : json :=
  match dict_get d (lit "@type") with
  | Some v => v
  | None => JStr []
  end.

(** The test of [_find_recipe] on the type: a list is joined with spaces
    (its items must be strings), then ["Recipe" in schema_type] is a
    substring test on a string, a key test on a dict, and a [TypeError] on
    anything else. *)
Definition type_mentions_recipe (schema_type : json) : outcome bool :=
  match schema_type with
  | JList l =>
      match all_strs l with
      | Some ss => Return (str_contains (lit "Recipe") (str_join (lit " ") ss))
      | None => Throw TypeError
      end
  | JStr s => Return (str_contains (lit "Recipe") s)
  | JDict d => Return (existsb (fun kv => str_eqb (lit "Recipe") (fst kv)) d)
  | _ => Throw TypeError
  end.

Fixpoint _find_recipe (data : json) : outcome (option json) :=
  match data with
  | JDict d =>
      match type_mentions_recipe (schema_type_of d) with
      | Throw e => Throw e
      | Return true => Return (Some data)
      | Return false =>
          (* [if "@graph" in data: return _find_recipe(data["@graph"])] *)
          (fix graph (entries : list (str * json)) : outcome (option json) :=
             match entries with
             | [] => Return None
             | (k, v) :: entries' =>
                 if str_eqb (lit "@graph") k then _find_recipe v
                 else graph entries'
             end) d
      end
  | JList l =>
      (fix each (items : list json) : outcome (option json) :=
         match items with
         | [] => Return None
         | item :: items' =>
             match _find_recipe item with
             | Throw e => Throw e
             | Return result =>
                 if truthy_result result then Return result else each items'
             end
         end) l
  | _ => Return None
  end.

(** [v == "HowToSection"] *)
Definition is_HowToSection (v : option json) : bool :=
  match v with
  | Some (JStr s) => str_eqb s (lit "HowToSection")
  | _ => false
  end.

Fixpoint _parse_instructions (raw : json) : outcome (list json) :=
  match raw with
  | JStr s => Return [JStr s]
  | JList l =>
      (fix each (items : list json) : outcome (list json) :=
         match items with
         | [] => Return []
         | item :: items' =>
             let here :=
               match item with
               | JStr s => Return [item]
               | JDict d =>
                   if is_HowToSection (dict_get d (lit "@type")) then
                     (* [item.get("itemListElement", [])] *)
                     (fix section (entries : list (str * json))
                        : outcome (list json) :=
                        match entries with
                        | [] => Return []
                        | (k, v) :: entries' =>
                            if str_eqb (lit "itemListElement") k
                            then _parse_instructions v
                            else section entries'
                        end) d
                   else
                     let text := match dict_get d (lit "text") with
                                 | Some v => v
                                 | None => JStr []
                                 end in
                     if truthy text then Return [text] else Return []
               | _ => Return []
               end in
             match here with
             | Throw e => Throw e
             | Return steps =>
                 match each items' with
                 | Throw e => Throw e
                 | Return rest => Return (steps ++ rest)
                 end
             end
         end) l
  | JDict d =>
      (* iterating a dict yields its keys, which are strings *)
      Return (map (fun kv => JStr (fst kv)) d)
  | _ => Throw TypeError
  end.

(** The steps of one part, then those of the next; the first exception
    met is the one that is raised. *)
Definition steps_then (a b : outcome (list json)) : outcome (list json) :=
  match a with
  | Throw e => Throw e
  | Return x =>
      match b with
      | Throw e => Throw e
      | Return y => Return (x ++ y)
      end
  end.

(** Where the search of [data] ends at [r]: at the data itself; in an item
    of a list, every earlier item of which has been searched and has given
    [None]; or in the value under the key ["@graph"] of a dict whose own type
    does not mention "Recipe".  No other key of a dict is followed. *)
Inductive reached (r : json) : json -> Prop :=
| reached_here : reached r r
| reached_item l pre item post :
    l = pre ++ item :: post ->
    (forall earlier, In earlier pre -> _find_recipe earlier = Return None) ->
    reached r item -> reached r (JList l)
| reached_graph d g :
    type_mentions_recipe (schema_type_of d) = Return false ->
    dict_get d (lit "@graph") = Some g ->
    reached r g -> reached r (JDict d).

(* ================================================================= *)
(** ** [meal_planner.py]: the two weeks of the planner *)

(** A [date], by its proleptic Gregorian ordinal: 1 is 0001-01-01, a
    Monday, and [date.max] is 9999-12-31. *)
Definition _MAXORDINAL : Z := 3652059.

(** [d.weekday()]: Monday is 0. *)
Definition weekday (d : Z) : Z := ((d + 6) mod 7)%Z.

(** [timedelta(days=n)] and [timedelta(weeks=n)], as a number of days. *)
Definition timedelta (days : Z) : result Z :=
  if (999999999 <? Z.abs days)%Z then Raise OverflowError else Ok days.

(** [d + timedelta], which must stay a date. *)
Definition date_add (d : Z) (days : Z) : result Z :=
  let o := (d + days)%Z in
  if (0 <? o)%Z && (o <=? _MAXORDINAL)%Z then Ok o else Raise OverflowError.

Fixpoint map_result {A B} (f : A -> result B) (l : list A) : result (list B) :=
  match l with
  | [] => Ok []
  | a :: l' =>
      b <- f a ;;
      bs <- map_result f l' ;;
      Ok (b :: bs)
  end.

(** [_two_week_dates(offset)], with [date.today()] given. *)
Definition _two_week_dates (today : Z) (offset : Z) : result (list Z) :=
  back <- timedelta (weekday today) ;;
  this_monday <- date_add today (- back) ;;
  weeks <- timedelta (7 * offset) ;;
  monday <- date_add this_monday weeks ;;
  map_result (fun i => days <- timedelta i ;; date_add monday days)
             (map Z.of_nat (seq 0 14)).

(* ================================================================= *)
(** * Properties *)

(** ** Strings and tables *)

Lemma str_eqb_eq a b : str_eqb a b = true <-> a = b.
Proof. unfold str_eqb. destruct (list_eq_dec N.eq_dec a b); split; congruence. Qed.

Lemma str_eqb_refl a : str_eqb a a = true.
Proof. now apply str_eqb_eq. Qed.

Lemma str_eqb_neq a b : str_eqb a b = false <-> a <> b.
Proof. unfold str_eqb. destruct (list_eq_dec N.eq_dec a b); split; congruence. Qed.

Lemma str_eqb_sym a b : str_eqb a b = str_eqb b a.
Proof.
  destruct (str_eqb b a) eqn:E.
  - apply str_eqb_eq in E. subst. apply str_eqb_refl.
  - apply str_eqb_neq. apply str_eqb_neq in E. congruence.
Qed.

Lemma unit_pair_eqb_eq a b : unit_pair_eqb a b = true <-> a = b.
Proof.
  unfold unit_pair_eqb. destruct a as [a1 a2], b as [b1 b2]; simpl.
  rewrite andb_true_iff, !str_eqb_eq. split.
  - intros [-> ->]; reflexivity.
  - intros E; inversion E; auto.
Qed.

Lemma unit_pair_eqb_refl a : unit_pair_eqb a a = true.
Proof. now apply unit_pair_eqb_eq. Qed.

Lemma table_get_In t key v : table_get t key = Some v -> In (key, v) t.
Proof.
  induction t as [|[k w] t IH]; simpl; [discriminate|].
  destruct (unit_pair_eqb key k) eqn:E.
  - apply unit_pair_eqb_eq in E. intros [= ->]. left; congruence.
  - intros H. right. auto.
Qed.

Lemma table_get_None t key :
  table_get t key = None <-> forall v, ~ In (key, v) t.
Proof.
  induction t as [|[k w] t IH]; simpl.
  - split; auto.
  - destruct (unit_pair_eqb key k) eqn:E.
    + apply unit_pair_eqb_eq in E. subst k. split; [discriminate|].
      intros H. exfalso. apply (H w). now left.
    + rewrite IH. split.
      * intros H v [Hv|Hv]; [|now apply (H v)].
        inversion Hv; subst. rewrite unit_pair_eqb_refl in E. discriminate.
      * intros H v Hv. apply (H v). now right.
Qed.

(** No unit converts to itself through the table, and no pair is
    tabulated in both directions. *)
Lemma CONVERTIBLE_directed u1 u2 factor :
  table_get CONVERTIBLE (u1, u2) = Some factor ->
  str_eqb u1 u2 = false /\ table_get CONVERTIBLE (u2, u1) = None.
Proof.
  intros H. apply table_get_In in H. simpl in H.
  repeat (destruct H as [H|H]; [inversion H; subst; split; reflexivity|]).
  contradiction.
Qed.

(** ** The unit converter *)

Lemma try_convert_None q u1 u2 :
  _try_convert q u1 u2 = None <->
  str_eqb u1 u2 = false /\ table_get CONVERTIBLE (u1, u2) = None
  /\ table_get CONVERTIBLE (u2, u1) = None.
Proof.
  unfold _try_convert.
  destruct (str_eqb u1 u2); [split; [discriminate|intros [? _]; discriminate]|].
  destruct (table_get CONVERTIBLE (u1, u2));
    [split; [discriminate|intros (_ & ? & _); discriminate]|].
  destruct (table_get CONVERTIBLE (u2, u1));
    [split; [discriminate|intros (_ & _ & ?); discriminate]|].
  split; auto.
Qed.

(** C3.  The converter returns the amount unchanged between equal units,
    the amount divided by the factor for a tabulated pair, the amount
    multiplied by the factor for the reverse of a tabulated pair, and
    nothing otherwise: there is no chaining, 5 tsp do not convert to cups.
    3 tsp are 1.0 tbsp and 1 tbsp is 3.0 tsp. *)
Theorem try_convert_spec :
  (forall amount u, _try_convert amount u u = Some amount) /\
  (forall amount from_unit to_unit factor,
      table_get CONVERTIBLE (from_unit, to_unit) = Some factor ->
      _try_convert amount from_unit to_unit = Some (float_div amount factor)) /\
  (forall amount from_unit to_unit factor,
      table_get CONVERTIBLE (to_unit, from_unit) = Some factor ->
      _try_convert amount from_unit to_unit = Some (float_mul amount factor)) /\
  (forall amount from_unit to_unit,
      from_unit <> to_unit ->
      table_get CONVERTIBLE (from_unit, to_unit) = None ->
      table_get CONVERTIBLE (to_unit, from_unit) = None ->
      _try_convert amount from_unit to_unit = None) /\
  _try_convert (float_of_Z 3) (lit "tsp") (lit "tbsp") = Some (float_of_Z 1) /\
  _try_convert (float_of_Z 1) (lit "tbsp") (lit "tsp") = Some (float_of_Z 3) /\
  _try_convert (float_of_Z 5) (lit "tsp") (lit "cup") = None.
Proof.
  repeat split.
  - intros amount u. unfold _try_convert. now rewrite str_eqb_refl.
  - intros amount u1 u2 factor H.
    destruct (CONVERTIBLE_directed _ _ H) as [Hne _].
    unfold _try_convert. now rewrite Hne, H.
  - intros amount u1 u2 factor H.
    destruct (CONVERTIBLE_directed _ _ H) as [Hne Hrev].
    unfold _try_convert. rewrite str_eqb_sym, Hne, Hrev, H. reflexivity.
  - intros amount u1 u2 Hne H1 H2. apply try_convert_None.
    repeat split; auto. now apply str_eqb_neq.
Qed.

Lemma try_convert_spec_witness :
  _try_convert (float_of_Z 2) (lit "tsp") (lit "tbsp")
  = Some (float_div (float_of_Z 2) (float_of_Z 3))
  /\ _try_convert (float_of_Z 2) (lit "kg") (lit "g")
     = Some (float_mul (float_of_Z 2) (float_of_Z 1000))
  /\ _try_convert (float_of_Z 2) (lit "cup") (lit "g") = None.
Proof.
  destruct try_convert_spec as (_ & Hdiv & Hmul & Hnone & _).
  split; [|split].
  - apply Hdiv. reflexivity.
  - apply Hmul. reflexivity.
  - apply Hnone; [discriminate|reflexivity|reflexivity].
Defined.

(** Failure to convert does not depend on the direction nor on the
    amounts. *)
Lemma try_convert_None_swap q q' u1 u2 :
  _try_convert q u1 u2 = None -> _try_convert q' u2 u1 = None.
Proof.
  intros H. apply try_convert_None in H.
  destruct H as (Hne & H1 & H2). apply try_convert_None.
  rewrite str_eqb_sym. auto.
Qed.

(** C10.  Whether two units convert does not depend on the direction, so
    once the attempt to convert the new amount into the existing unit has
    failed, the attempt of [combine_ingredients] to convert the existing
    amount into the new unit fails as well: that branch is never taken. *)
Theorem try_convert_symmetric :
  (forall q u1 u2,
      _try_convert q u1 u2 = None <-> _try_convert q u2 u1 = None) /\
  (forall existing qty unit,
      _try_convert qty unit (item_unit existing) = None ->
      _try_convert (item_qty existing) (item_unit existing) unit = None).
Proof.
  split.
  - intros q u1 u2. split; apply try_convert_None_swap.
  - intros existing qty unit. apply try_convert_None_swap.
Qed.

Lemma try_convert_symmetric_witness :
  _try_convert (float_of_Z 200) (lit "cup") (lit "g") = None.
Proof.
  apply (proj2 try_convert_symmetric
           (mkItem (lit "flour") (float_of_Z 1) (lit "cup") [])
           (float_of_Z 200) (lit "g")).
  reflexivity.
Defined.

(** ** Merging one line into an existing item *)

Section MergeProperties.
Context {U : UnicodeData}.

(** C4.  A line whose key is already there, with both units non-empty and
    the new unit convertible into the existing one, adds its converted
    amount to the existing quantity and leaves the unit as it is; 1 tbsp
    and 2 tsp of olive oil give one item, 1 + 2/3 tbsp. *)
Theorem merge_convertible_units :
  (forall merged line qty unit name existing converted,
      key_of_name name <> [] ->
      dict_get merged (key_of_name name) = Some existing ->
      unit <> [] ->
      item_unit existing <> [] ->
      _try_convert qty unit (item_unit existing) = Some converted ->
      add_parsed merged line (qty, unit, name)
      = dict_update merged (key_of_name name)
          (mkItem (item_name existing)
                  (float_add (item_qty existing) converted)
                  (item_unit existing)
                  (raw_sources existing ++ [line]))) /\
  combine_ingredients
    [recipe_of [lit "1 tbsp olive oil"; lit "2 tsp olive oil"]]
  = Ok [mkItem (lit "olive oil")
               (float_add (float_of_Z 1)
                          (float_div (float_of_Z 2) (float_of_Z 3)))
               (lit "tbsp")
               [lit "1 tbsp olive oil"; lit "2 tsp olive oil"]].
Proof.
  split; [|vm_compute; reflexivity].
  intros merged line qty unit name existing converted Hkey Hget Hu He Hc.
  unfold add_parsed. destruct (key_of_name name) as [|c key] eqn:K;
    [contradiction|].
  rewrite Hget. unfold merge_existing.
  destruct unit as [|u0 unit]; [contradiction|].
  destruct (item_unit existing) as [|e0 eu] eqn:E; [contradiction|].
  simpl. rewrite Hc. reflexivity.
Qed.

(** C5.  A line whose key is already there, with both units non-empty and
    no conversion between them, adds its raw amount to the existing
    quantity, and the unit becomes the existing unit, a plus sign and the
    new unit when the two differ; 1 cup and 200 g of flour give one item,
    201 cup+g. *)
Theorem merge_incompatible_units :
  (forall merged line qty unit name existing,
      key_of_name name <> [] ->
      dict_get merged (key_of_name name) = Some existing ->
      unit <> [] ->
      item_unit existing <> [] ->
      _try_convert qty unit (item_unit existing) = None ->
      add_parsed merged line (qty, unit, name)
      = dict_update merged (key_of_name name)
          (mkItem (item_name existing)
                  (float_add (item_qty existing) qty)
                  (if str_eqb unit (item_unit existing)
                   then item_unit existing
                   else item_unit existing ++ lit "+" ++ unit)
                  (raw_sources existing ++ [line]))
      /\ unit <> item_unit existing) /\
  combine_ingredients [recipe_of [lit "1 cup flour"; lit "200 g flour"]]
  = Ok [mkItem (lit "flour") (float_of_Z 201) (lit "cup+g")
               [lit "1 cup flour"; lit "200 g flour"]].
Proof.
  split; [|vm_compute; reflexivity].
  intros merged line qty unit name existing Hkey Hget Hu He Hc.
  split.
  - pose proof (@try_convert_None_swap qty (item_qty existing) _ _ Hc) as Hrev.
    unfold add_parsed. destruct (key_of_name name) as [|c key] eqn:K;
      [contradiction|].
    rewrite Hget. unfold merge_existing.
    destruct unit as [|u0 unit]; [contradiction|].
    destruct (item_unit existing) as [|e0 eu] eqn:E; [contradiction|].
    simpl negb. simpl andb. cbv iota. rewrite Hc, Hrev. reflexivity.
  - apply try_convert_None in Hc. destruct Hc as [Hne _].
    now apply str_eqb_neq.
Qed.

End MergeProperties.

Lemma merge_convertible_units_witness :
  @add_parsed ascii_only
     [(lit "olive oil",
       mkItem (lit "olive oil") (float_of_Z 1) (lit "tbsp")
              [lit "1 tbsp olive oil"])]
     (lit "2 tsp olive oil") (float_of_Z 2, lit "tsp", lit "olive oil")
  = [(lit "olive oil",
      mkItem (lit "olive oil")
             (float_add (float_of_Z 1)
                        (float_div (float_of_Z 2) (float_of_Z 3)))
             (lit "tbsp")
             [lit "1 tbsp olive oil"; lit "2 tsp olive oil"])].
Proof.
  apply (proj1 (@merge_convertible_units ascii_only)
           [(lit "olive oil",
             mkItem (lit "olive oil") (float_of_Z 1) (lit "tbsp")
                    [lit "1 tbsp olive oil"])]
           (lit "2 tsp olive oil") (float_of_Z 2) (lit "tsp")
           (lit "olive oil")
           (mkItem (lit "olive oil") (float_of_Z 1) (lit "tbsp")
                   [lit "1 tbsp olive oil"])
           (float_div (float_of_Z 2) (float_of_Z 3)));
    try discriminate; reflexivity.
Defined.

Lemma merge_incompatible_units_witness :
  @add_parsed ascii_only
     [(lit "flour",
       mkItem (lit "flour") (float_of_Z 1) (lit "cup") [lit "1 cup flour"])]
     (lit "200 g flour") (float_of_Z 200, lit "g", lit "flour")
  = [(lit "flour",
      mkItem (lit "flour") (float_add (float_of_Z 1) (float_of_Z 200))
             (lit "cup+g") [lit "1 cup flour"; lit "200 g flour"])].
Proof.
  apply (proj1 (@merge_incompatible_units ascii_only)
           [(lit "flour",
             mkItem (lit "flour") (float_of_Z 1) (lit "cup")
                    [lit "1 cup flour"])]
           (lit "200 g flour") (float_of_Z 200) (lit "g") (lit "flour")
           (mkItem (lit "flour") (float_of_Z 1) (lit "cup")
                   [lit "1 cup flour"]));
    try discriminate; reflexivity.
Defined.

(** ** The parser on a quantity that no float holds *)

(** C1.  The parser does raise: a quantity of 310 digits passes
    [Fraction], and its conversion to a float raises [OverflowError],
    which the handler of [_parse_quantity] does not catch. *)
Theorem parse_quantity_raises (U : UnicodeData) :
  _parse_quantity huge_quantity_line = Raise OverflowError.
Proof. vm_compute. reflexivity. Qed.

(** ** Lists and dicts *)

Lemma dict_get_Some_In {V} (m : list (str * V)) k v :
  dict_get m k = Some v -> In (k, v) m.
Proof.
  induction m as [|[k' v'] m IH]; simpl; [discriminate|].
  destruct (str_eqb k k') eqn:E.
  - apply str_eqb_eq in E. intros [= ->]. left. congruence.
  - intros H. right. auto.
Qed.

Lemma dict_get_None_keys {V} (m : list (str * V)) k :
  dict_get m k = None <-> ~ In k (map fst m).
Proof.
  induction m as [|[k' v'] m IH]; simpl.
  - split; auto.
  - destruct (str_eqb k k') eqn:E.
    + apply str_eqb_eq in E. subst. split; [discriminate|].
      intros H. exfalso. apply H. now left.
    + apply str_eqb_neq in E. rewrite IH. split.
      * intros H [H'|H']; [congruence|auto].
      * intros H H'. apply H. now right.
Qed.

Lemma dict_get_In_NoDup {V} (m : list (str * V)) k v :
  NoDup (map fst m) -> In (k, v) m -> dict_get m k = Some v.
Proof.
  induction m as [|[k' v'] m IH]; simpl; [contradiction|].
  intros Hnd [H|H].
  - inversion H; subst. now rewrite str_eqb_refl.
  - inversion Hnd; subst. destruct (str_eqb k k') eqn:E.
    + apply str_eqb_eq in E. subst. exfalso. apply H2.
      change k' with (fst (k', v)). now apply in_map.
    + auto.
Qed.

Lemma dict_update_keys m k v : map fst (dict_update m k v) = map fst m.
Proof.
  induction m as [|[k' v'] m IH]; simpl; [reflexivity|].
  destruct (str_eqb k k'); simpl; congruence.
Qed.

Lemma In_dict_update m k v k' v' :
  NoDup (map fst m) -> In (k', v') (dict_update m k v) ->
  (k' <> k /\ In (k', v') m) \/ (k' = k /\ v' = v).
Proof.
  induction m as [|[k0 v0] m IH]; simpl; [contradiction|].
  intros Hnd. inversion Hnd; subst.
  destruct (str_eqb k k0) eqn:E.
  - apply str_eqb_eq in E. subst k0. intros [H|H].
    + inversion H; subst. now right.
    + left. split; [|now right]. intros ->. apply H1.
      change k with (fst (k, v')). now apply in_map.
  - apply str_eqb_neq in E. intros [H|H].
    + inversion H; subst. left. split; [congruence|now left].
    + destruct (IH H2 H) as [[? ?]|[? ?]]; [left|right]; auto.
Qed.

Lemma filter_head_split {A} (f : A -> bool) l x r :
  filter f l = x :: r ->
  exists pre post, l = pre ++ x :: post /\ f x = true
                   /\ forall y, In y pre -> f y = false.
Proof.
  induction l as [|a l IH]; simpl; [discriminate|].
  destruct (f a) eqn:E.
  - intros [= -> <-]. exists [], l. repeat split; auto. intros y [].
  - intros H. destruct (IH H) as (pre & post & -> & Hx & Hpre).
    exists (a :: pre), post. repeat split; auto.
    intros y [<-|Hy]; auto.
Qed.

(** ** The order of the final sort *)

Lemma str_leb_total a b : str_leb a b = false -> str_leb b a = true.
Proof.
  revert b. induction a as [|x a IH]; intros [|y b]; simpl; try discriminate;
    auto.
  destruct (N.ltb_spec x y); [discriminate|].
  destruct (N.eqb_spec x y).
  - subst. rewrite N.ltb_irrefl, N.eqb_refl. auto.
  - intros _. destruct (N.ltb_spec y x); [reflexivity|]. lia.
Qed.

Lemma str_leb_trans a b c :
  str_leb a b = true -> str_leb b c = true -> str_leb a c = true.
Proof.
  revert b c. induction a as [|x a IH]; intros [|y b] [|z c]; simpl;
    try discriminate; auto.
  destruct (N.ltb_spec x y), (N.ltb_spec y z), (N.ltb_spec x z);
    auto; try lia;
    destruct (N.eqb_spec x y), (N.eqb_spec y z), (N.eqb_spec x z);
    try discriminate; try lia; eauto.
Qed.

Section AggregatorProperties.
Context {U : UnicodeData}.

Lemma insert_item_perm x l : Permutation (insert_item x l) (x :: l).
Proof.
  induction l as [|y l IH]; simpl; [reflexivity|].
  destruct (str_leb (sort_key x) (sort_key y)); [reflexivity|].
  rewrite IH. apply perm_swap.
Qed.

Lemma sorted_perm l : Permutation (sorted l) l.
Proof.
  induction l as [|x l IH]; simpl; [reflexivity|].
  rewrite insert_item_perm. now constructor.
Qed.

Lemma insert_item_Forall (P : AggregatedItem -> Prop) x l :
  P x -> Forall P l -> Forall P (insert_item x l).
Proof.
  intros Hx Hl. induction Hl as [|y l Hy Hl IH]; simpl.
  - constructor; auto.
  - destruct (str_leb (sort_key x) (sort_key y)); repeat constructor; auto.
Qed.

Lemma insert_item_sorted x l :
  StronglySorted key_le l -> StronglySorted key_le (insert_item x l).
Proof.
  induction 1 as [|y l Hs IH Hy]; simpl.
  - repeat constructor.
  - destruct (str_leb (sort_key x) (sort_key y)) eqn:E.
    + constructor; [now constructor|]. constructor; [exact E|].
      eapply Forall_impl; [|exact Hy]. intros z Hz.
      unfold key_le in *. eapply str_leb_trans; eauto.
    + constructor; [exact IH|]. apply insert_item_Forall; auto.
      now apply str_leb_total.
Qed.

Lemma sorted_sorted l : StronglySorted key_le (sorted l).
Proof.
  induction l as [|x l IH]; simpl; [constructor|].
  now apply insert_item_sorted.
Qed.

(** *** The two loops *)

Lemma for_lines_app m l1 l2 :
  for_lines m (l1 ++ l2) = (m' <- for_lines m l1 ;; for_lines m' l2).
Proof.
  revert m. induction l1 as [|l l1 IH]; intros m; simpl; [reflexivity|].
  destruct (_parse_quantity l); simpl; auto.
Qed.

Lemma for_recipes_flat m recipes :
  for_recipes m recipes = for_lines m (all_lines recipes).
Proof.
  revert m. induction recipes as [|r rs IH]; intros m; simpl; [reflexivity|].
  rewrite for_lines_app. destruct (for_lines m (get_ingredients r)); simpl; auto.
Qed.

Lemma for_lines_parsed m lines :
  all_parse lines ->
  exists ps, map fst ps = lines
             /\ (forall lp, In lp ps -> _parse_quantity (fst lp) = Ok (snd lp))
             /\ for_lines m lines = Ok (add_all m ps).
Proof.
  revert m. induction lines as [|l lines IH]; intros m Hall.
  - exists []. repeat split. intros lp [].
  - destruct (Hall l (or_introl eq_refl)) as [p Hp].
    destruct (IH (add_parsed m l p)) as (ps & Hfst & Hps & Hfor).
    { intros l' Hl'. apply Hall. now right. }
    exists ((l, p) :: ps). simpl. rewrite Hfst, Hp. simpl.
    repeat split; auto.
    intros lp [<-|H]; auto.
Qed.

Lemma for_lines_Ok_all_parse m lines m' :
  for_lines m lines = Ok m' -> all_parse lines.
Proof.
  revert m. induction lines as [|l lines IH]; intros m H l' Hl'.
  - destruct Hl'.
  - simpl in H. destruct (_parse_quantity l) as [p|e] eqn:Hp; [|discriminate].
    simpl in H. destruct Hl' as [<-|Hl']; [eauto|]. eapply IH; eauto.
Qed.

(** *** What the dict holds *)

Lemma group_snoc k ps lp :
  group k (ps ++ [lp])
  = group k ps ++ (if str_eqb (parsed_key (snd lp)) k then [lp] else []).
Proof. unfold group. rewrite filter_app. reflexivity. Qed.

Lemma merge_existing_name e q u l :
  item_name (merge_existing e q u l) = item_name e.
Proof.
  unfold merge_existing.
  match goal with |- context [let '(_, _) := ?c in _] => destruct c end.
  reflexivity.
Qed.

Lemma merge_existing_sources e q u l :
  raw_sources (merge_existing e q u l) = raw_sources e ++ [l].
Proof.
  unfold merge_existing.
  match goal with |- context [let '(_, _) := ?c in _] => destruct c end.
  reflexivity.
Qed.

Lemma merged_inv_nil : merged_inv [] [].
Proof.
  repeat split; simpl; try contradiction. constructor.
Qed.

Lemma merged_inv_step ps m l p :
  merged_inv ps m -> merged_inv (ps ++ [(l, p)]) (add_parsed m l p).
Proof.
  intros (Hnd & Hent & Hkeys).
  destruct p as [[qty unit] name].
  unfold add_parsed.
  assert (K : parsed_key (qty, unit, name) = key_of_name name) by reflexivity.
  set (p := (qty, unit, name)) in *.
  destruct (key_of_name name) as [|c key'] eqn:K0.
  - (* the line is skipped *)
    split; [exact Hnd|]. split.
    + intros k x Hin. destruct (Hent k x Hin) as (Hk & Hkey & Hsrc & Hfirst).
      rewrite group_snoc. simpl snd. rewrite K.
      assert (E : str_eqb [] k = false) by (apply str_eqb_neq; congruence).
      rewrite E, app_nil_r. auto.
    + intros lp Hin Hne. apply in_app_or in Hin. destruct Hin as [Hin|[<-|[]]].
      * auto.
      * simpl in Hne. congruence.
  - set (key := c :: key') in *.
    destruct (dict_get m key) as [existing|] eqn:G.
    + (* the key is there: the item is updated in place *)
      pose proof (dict_get_Some_In _ _ G) as Hex.
      split; [now rewrite dict_update_keys|]. split.
      * intros k x Hin. apply In_dict_update in Hin; [|exact Hnd].
        rewrite group_snoc. simpl snd. rewrite K.
        destruct Hin as [[Hne Hin]|[-> ->]].
        -- destruct (Hent k x Hin) as (Hk & Hkey & Hsrc & Hfirst).
           assert (E : str_eqb key k = false) by (apply str_eqb_neq; congruence).
           rewrite E, app_nil_r. auto.
        -- destruct (Hent key existing Hex)
             as (Hk & Hkey & Hsrc & l0 & p0 & rest & Hg & Hname).
           rewrite str_eqb_refl. unfold item_key.
           rewrite merge_existing_name, merge_existing_sources.
           repeat split; auto.
           ++ rewrite map_app, Hsrc. reflexivity.
           ++ exists l0, p0, (rest ++ [(l, p)]). rewrite Hg. auto.
      * rewrite dict_update_keys.
        intros lp Hin Hne. apply in_app_or in Hin. destruct Hin as [Hin|[<-|[]]].
        -- auto.
        -- simpl snd. rewrite K. change key with (fst (key, existing)).
           now apply in_map.
    + (* a new key: a fresh item goes to the end *)
      pose proof (proj1 (dict_get_None_keys _ _) G) as Hnew.
      assert (Hg : group key ps = []).
      { destruct (group key ps) as [|lp r] eqn:E; [reflexivity|].
        exfalso. apply Hnew.
        assert (Hin : In lp (group key ps)) by (rewrite E; now left).
        unfold group in Hin. apply filter_In in Hin. destruct Hin as [Hin Hk].
        apply str_eqb_eq in Hk. rewrite <- Hk. apply Hkeys; auto.
        rewrite Hk. discriminate. }
      split; [|split].
      * rewrite map_app. simpl. apply NoDup_app; auto.
        -- repeat constructor. intros [].
        -- intros a Ha [<-|[]]. auto.
      * intros k x Hin. rewrite group_snoc. simpl snd. rewrite K.
        apply in_app_or in Hin. destruct Hin as [Hin|[Hin|[]]].
        -- destruct (Hent k x Hin) as (Hk & Hkey & Hsrc & Hfirst).
           assert (E : str_eqb key k = false).
           { apply str_eqb_neq. intros <-. apply Hnew.
             change key with (fst (key, x)). now apply in_map. }
           rewrite E, app_nil_r. auto.
        -- inversion Hin; subst k x; clear Hin.
           rewrite str_eqb_refl, Hg. simpl.
           repeat split; auto; [discriminate|].
           exists l, p, []. auto.
      * rewrite map_app. simpl.
        intros lp Hin Hne. apply in_app_or in Hin. apply in_or_app.
        destruct Hin as [Hin|[<-|[]]]; [left; auto|].
        right. left. simpl snd. now rewrite K.
Qed.

Lemma merged_inv_add_all ps m qs :
  merged_inv ps m -> merged_inv (ps ++ qs) (add_all m qs).
Proof.
  revert ps m. induction qs as [|[l p] qs IH]; intros ps m H; simpl.
  - now rewrite app_nil_r.
  - change (ps ++ (l, p) :: qs) with (ps ++ [(l, p)] ++ qs).
    rewrite app_assoc. apply IH. now apply merged_inv_step.
Qed.

(** Whenever every line parses, the aggregator returns the sorted values
    of a dict that satisfies [merged_inv] for the parsed lines. *)
Lemma combine_ingredients_returns recipes :
  all_parse (all_lines recipes) ->
  exists ps m,
    map fst ps = all_lines recipes
    /\ (forall lp, In lp ps -> _parse_quantity (fst lp) = Ok (snd lp))
    /\ merged_inv ps m
    /\ combine_ingredients recipes = Ok (sorted (map snd m)).
Proof.
  intros Hall.
  destruct (for_lines_parsed [] Hall) as (ps & Hfst & Hps & Hfor).
  exists ps, (add_all [] ps). split; [exact Hfst|]. split; [exact Hps|]. split.
  - apply (merged_inv_add_all (ps := []) ps merged_inv_nil).
  - unfold combine_ingredients. rewrite for_recipes_flat, Hfor. reflexivity.
Qed.

End AggregatorProperties.

(** ** The aggregated output *)

Section OutputProperties.
Context {U : UnicodeData}.

Lemma group_lines k ps :
  (forall lp, In lp ps -> _parse_quantity (fst lp) = Ok (snd lp)) ->
  map fst (group k ps) = filter (line_has_key k) (map fst ps).
Proof.
  induction ps as [|[l p] ps IH]; intros H; [reflexivity|].
  pose proof (H (l, p) (or_introl eq_refl)) as Hl. cbn [fst snd] in Hl.
  unfold group in *. cbn [filter map fst snd].
  unfold line_has_key at 1. rewrite Hl.
  destruct (str_eqb (parsed_key p) k); cbn [map fst]; rewrite IH; auto;
    intros lp Hlp; apply H; now right.
Qed.

Lemma in_values (m : merged_dict) x :
  In x (map snd m) <-> exists k, In (k, x) m.
Proof.
  rewrite in_map_iff. split.
  - intros [[k y] [<- H]]. now exists k.
  - intros [k H]. now exists (k, x).
Qed.

Lemma in_keys (m : merged_dict) k :
  In k (map fst m) <-> exists x, In (k, x) m.
Proof.
  rewrite in_map_iff. split.
  - intros [[k' x] [<- H]]. now exists x.
  - intros [x H]. now exists (k, x).
Qed.

Lemma in_sorted_values (m : merged_dict) x :
  In x (sorted (map snd m)) <-> exists k, In (k, x) m.
Proof.
  rewrite <- in_values. split; apply Permutation_in;
    [|symmetry]; apply sorted_perm.
Qed.

Lemma keys_of_values ps m :
  merged_inv ps m -> map item_key (map snd m) = map fst m.
Proof.
  intros (_ & Hent & _). rewrite map_map. apply map_ext_in.
  intros [k x] Hin. simpl. now destruct (Hent k x Hin) as (_ & ? & _).
Qed.

Lemma keys_char ps m :
  (forall lp, In lp ps -> _parse_quantity (fst lp) = Ok (snd lp)) ->
  merged_inv ps m ->
  forall k, In k (map fst m) <->
            k <> [] /\ exists line, In line (map fst ps)
                                    /\ line_has_key k line = true.
Proof.
  intros Hps (Hnd & Hent & Hkeys) k. split.
  - intros Hk. apply in_keys in Hk. destruct Hk as [x Hin].
    destruct (Hent k x Hin) as (Hne & _ & _ & l0 & p0 & rest & Hg & _).
    split; [exact Hne|]. exists l0.
    assert (Hin0 : In (l0, p0) (group k ps)) by (rewrite Hg; now left).
    unfold group in Hin0. apply filter_In in Hin0. destruct Hin0 as [Hin0 Hk0].
    split.
    + change l0 with (fst (l0, p0)). now apply in_map.
    + pose proof (Hps _ Hin0) as Hp0. cbn [fst snd] in Hp0.
      unfold line_has_key. now rewrite Hp0.
  - intros (Hne & line & Hin & Hk). apply in_map_iff in Hin.
    destruct Hin as (lp & <- & Hin). unfold line_has_key in Hk.
    rewrite (Hps _ Hin) in Hk. apply str_eqb_eq in Hk. subst k. auto.
Qed.

(** C2, as the code has it.  When no line makes the parser raise, the
    aggregator returns; every line whose grouping key is not empty is among
    the sources of the item of its key; every item has a key that is not
    empty, and its sources are the lines of its key in the order the loops
    meet them.  A line whose key is empty is skipped: it is among the
    sources of no item. *)
Theorem sources_of_keyed_lines (recipes : list Recipe) :
  all_parse (all_lines recipes) ->
  exists out,
    combine_ingredients recipes = Ok out
    /\ (forall line p,
          In line (all_lines recipes) ->
          _parse_quantity line = Ok p ->
          parsed_key p <> [] ->
          exists x, In x out /\ item_key x = parsed_key p
                    /\ In line (raw_sources x))
    /\ (forall x, In x out ->
          item_key x <> []
          /\ raw_sources x
             = filter (line_has_key (item_key x)) (all_lines recipes))
    /\ (forall line p,
          _parse_quantity line = Ok p ->
          parsed_key p = [] ->
          forall x, In x out -> ~ In line (raw_sources x)).
Proof.
  intros Hall.
  destruct (@combine_ingredients_returns U recipes Hall)
    as (ps & m & Hfst & Hps & Hinv & Hc).
  exists (sorted (map snd m)). split; [exact Hc|].
  pose proof Hinv as (Hnd & Hent & Hkeys).
  assert (Hitems : forall x, In x (sorted (map snd m)) ->
            item_key x <> []
            /\ raw_sources x
               = filter (line_has_key (item_key x)) (all_lines recipes)).
  { intros x Hx. apply in_sorted_values in Hx. destruct Hx as [k Hx].
    destruct (Hent _ _ Hx) as (Hne & Hkey & Hsrc & _).
    split; [congruence|].
    rewrite Hkey, Hsrc, <- Hfst. now apply group_lines. }
  split; [|split; [exact Hitems|]].
  - intros line p Hin Hp Hne. rewrite <- Hfst in Hin.
    apply in_map_iff in Hin. destruct Hin as (lp & <- & Hin).
    rewrite (Hps _ Hin) in Hp. injection Hp as <-.
    pose proof (Hkeys lp Hin Hne) as Hk. apply in_keys in Hk.
    destruct Hk as [x Hx]. exists x.
    destruct (Hent _ _ Hx) as (_ & Hkey & Hsrc & _).
    split; [apply in_sorted_values; eauto|]. split; [exact Hkey|].
    rewrite Hsrc. apply in_map. unfold group. apply filter_In.
    split; [exact Hin|apply str_eqb_refl].
  - intros line p Hp He x Hx Hsrc.
    destruct (Hitems x Hx) as (Hne & Hraw).
    rewrite Hraw in Hsrc. apply filter_In in Hsrc. destruct Hsrc as [_ Hk].
    unfold line_has_key in Hk. rewrite Hp in Hk.
    apply str_eqb_eq in Hk. congruence.
Qed.

(** C9.  When no line makes the parser raise, the aggregator returns, and
    the name of every item is the parsed name of the first line, in the
    order of the loops, that has the item's grouping key; merging a line
    into an item leaves the name of the item as it is. *)
Theorem name_of_first_occurrence :
  (forall recipes,
      all_parse (all_lines recipes) ->
      exists out,
        combine_ingredients recipes = Ok out
        /\ forall x, In x out ->
             exists pre line post qty unit,
               all_lines recipes = pre ++ line :: post
               /\ _parse_quantity line = Ok (qty, unit, item_name x)
               /\ item_key x <> []
               /\ forall l, In l pre -> line_has_key (item_key x) l = false) /\
  (forall existing qty unit line,
      item_name (merge_existing existing qty unit line) = item_name existing).
Proof.
  split; [|intros; apply merge_existing_name].
  intros recipes Hall.
  destruct (@combine_ingredients_returns U recipes Hall)
    as (ps & m & Hfst & Hps & Hinv & Hc).
  exists (sorted (map snd m)). split; [exact Hc|].
  destruct Hinv as (Hnd & Hent & Hkeys).
  intros x Hx. apply in_sorted_values in Hx. destruct Hx as [k Hx].
  destruct (Hent _ _ Hx) as (Hne & Hkey & _ & l0 & p0 & rest & Hg & Hname).
  unfold group in Hg. apply filter_head_split in Hg.
  destruct Hg as (pre & post & Hsplit & Hk0 & Hpre).
  assert (Hin0 : In (l0, p0) ps) by (rewrite Hsplit; apply in_elt).
  pose proof (Hps _ Hin0) as Hp0. simpl in Hp0.
  destruct p0 as [[qty unit] name]. simpl in Hname. subst name.
  exists (map fst pre), l0, (map fst post), qty, unit.
  split; [|split; [|split]].
  - rewrite <- Hfst, Hsplit, map_app. reflexivity.
  - exact Hp0.
  - congruence.
  - intros l Hl. apply in_map_iff in Hl. destruct Hl as (lp & <- & Hl).
    unfold line_has_key. rewrite (Hps lp).
    + rewrite Hkey. now apply Hpre.
    + rewrite Hsplit. apply in_or_app. now left.
Qed.

(** C7, as the code has it.  When no line makes the parser raise, the
    aggregator returns a list in ascending order of the lowercased names,
    and it does so for every permutation of the lines, with the same
    grouping keys; the items themselves may differ with the order. *)
Theorem sorted_output_and_keys (recipes1 recipes2 : list Recipe) :
  Permutation (all_lines recipes1) (all_lines recipes2) ->
  all_parse (all_lines recipes1) ->
  exists out1 out2,
    combine_ingredients recipes1 = Ok out1
    /\ combine_ingredients recipes2 = Ok out2
    /\ StronglySorted key_le out1
    /\ StronglySorted key_le out2
    /\ Permutation (map item_key out1) (map item_key out2).
Proof.
  intros Hperm Hall1.
  assert (Hall2 : all_parse (all_lines recipes2)).
  { intros l Hl. apply Hall1. eapply Permutation_in; [symmetry|]; eauto. }
  destruct (@combine_ingredients_returns U recipes1 Hall1)
    as (ps1 & m1 & Hfst1 & Hps1 & Hinv1 & Hc1).
  destruct (@combine_ingredients_returns U recipes2 Hall2)
    as (ps2 & m2 & Hfst2 & Hps2 & Hinv2 & Hc2).
  exists (sorted (map snd m1)), (sorted (map snd m2)).
  repeat split; auto using sorted_sorted.
  rewrite !sorted_perm.
  rewrite (keys_of_values Hinv1), (keys_of_values Hinv2).
  apply NoDup_Permutation.
  - apply Hinv1.
  - apply Hinv2.
  - intros k. rewrite (keys_char Hps1 Hinv1), (keys_char Hps2 Hinv2).
    rewrite Hfst1, Hfst2. split; intros (Hne & line & Hin & Hk);
      (split; [exact Hne|]); exists line; (split; [|exact Hk]).
    + eapply Permutation_in; [exact Hperm|exact Hin].
    + eapply Permutation_in; [apply Permutation_sym; exact Hperm|exact Hin].
Qed.

End OutputProperties.

(** A line with a quantity and nothing else has an empty name and is
    left out of the output; the line is pure ASCII, the database plays no
    part. *)
Lemma empty_key_line_dropped :
  @_parse_quantity ascii_only (lit "2") = Ok (float_of_Z 2, [], [])
  /\ In (lit "2") (all_lines [recipe_of [lit "2"]])
  /\ @combine_ingredients ascii_only [recipe_of [lit "2"]] = Ok [].
Proof.
  split; [vm_compute; reflexivity|].
  split; [now left|vm_compute; reflexivity].
Qed.

Lemma sources_of_keyed_lines_witness :
  exists out,
    @combine_ingredients ascii_only
       [recipe_of [lit "2 eggs"; lit "2"; lit "1 egg"]] = Ok out.
Proof.
  destruct (@sources_of_keyed_lines ascii_only
              [recipe_of [lit "2 eggs"; lit "2"; lit "1 egg"]])
    as (out & Hout & _).
  - intros line Hin. simpl in Hin.
    destruct Hin as [<-|[<-|[<-|[]]]]; eexists; vm_compute; reflexivity.
  - exists out. exact Hout.
Defined.

Lemma name_of_first_occurrence_witness :
  exists out,
    @combine_ingredients ascii_only
       [recipe_of [lit "1 Tomato"]; recipe_of [lit "2 tomato "]] = Ok out.
Proof.
  destruct (proj1 (@name_of_first_occurrence ascii_only)
              [recipe_of [lit "1 Tomato"]; recipe_of [lit "2 tomato "]])
    as (out & Hout & _).
  - intros line Hin. simpl in Hin.
    destruct Hin as [<-|[<-|[]]]; eexists; vm_compute; reflexivity.
  - exists out. exact Hout.
Defined.

(** The same two lines in the two orders: the key is the same, the unit of
    the item is not. *)
Lemma permutation_changes_items :
  @combine_ingredients ascii_only
     [recipe_of [lit "1 cup flour"; lit "200 g flour"]]
  = Ok [mkItem (lit "flour") (float_of_Z 201) (lit "cup+g")
               [lit "1 cup flour"; lit "200 g flour"]]
  /\ @combine_ingredients ascii_only
       [recipe_of [lit "200 g flour"; lit "1 cup flour"]]
     = Ok [mkItem (lit "flour") (float_of_Z 201) (lit "g+cup")
                  [lit "200 g flour"; lit "1 cup flour"]].
Proof. split; vm_compute; reflexivity. Qed.

Lemma sorted_output_and_keys_witness :
  exists out1 out2,
    @combine_ingredients ascii_only
       [recipe_of [lit "1 cup flour"; lit "200 g flour"]] = Ok out1
    /\ @combine_ingredients ascii_only
         [recipe_of [lit "200 g flour"]; recipe_of [lit "1 cup flour"]]
       = Ok out2
    /\ Permutation (map (@item_key ascii_only) out1)
                   (map (@item_key ascii_only) out2).
Proof.
  destruct (@sorted_output_and_keys ascii_only
              [recipe_of [lit "1 cup flour"; lit "200 g flour"]]
              [recipe_of [lit "200 g flour"]; recipe_of [lit "1 cup flour"]])
    as (out1 & out2 & H1 & H2 & _ & _ & Hk).
  - simpl. apply perm_swap.
  - intros line Hin. simpl in Hin.
    destruct Hin as [<-|[<-|[]]]; eexists; vm_compute; reflexivity.
  - exists out1, out2. auto.
Defined.

(* ================================================================= *)
(** * Further properties of the aggregator *)

Section AggregatorExtras.
Context {U : UnicodeData}.

(** The handler of [_parse_quantity] leaves one exception through. *)
Lemma parse_quantity_raise_overflow text e :
  _parse_quantity text = Raise e -> e = OverflowError.
Proof.
  unfold _parse_quantity.
  destruct (_QTY_RE_match (strip text)) as [[[g1 g2] g3]|]; [|discriminate].
  destruct (eval_quantity _) as [q|[| |]]; try discriminate.
  - destruct (strip_chars _ _); [destruct (rstrip_chars _ _)|]; discriminate.
  - now intros [= <-].
Qed.

Lemma for_lines_result m lines :
  (all_parse lines /\ exists m', for_lines m lines = Ok m')
  \/ (for_lines m lines = Raise OverflowError
      /\ exists line, In line lines
                      /\ _parse_quantity line = Raise OverflowError).
Proof.
  revert m. induction lines as [|l lines IH]; intros m.
  - left. split; [intros ? []|]. now exists m.
  - simpl. destruct (_parse_quantity l) as [p|e] eqn:Hp; simpl.
    + destruct (IH (add_parsed m l p)) as [[Hall Hok]|[Hr (line & Hin & Hl)]].
      * left. split; [|exact Hok]. intros l' [<-|Hl']; eauto.
      * right. split; [exact Hr|]. exists line. split; [now right|exact Hl].
    + pose proof (parse_quantity_raise_overflow _ Hp) as ->.
      right. split; [reflexivity|]. exists l. split; [now left|exact Hp].
Qed.

(** X1.  Only the sequence of the lines counts, not the recipes they come
    from: two recipe lists with the same lines in the same order aggregate
    alike, and a recipe without ['ingredients'] adds nothing. *)
Theorem combine_depends_on_lines (recipes1 recipes2 : list Recipe) :
  all_lines recipes1 = all_lines recipes2 ->
  combine_ingredients recipes1 = combine_ingredients recipes2.
Proof.
  intros H. unfold combine_ingredients. now rewrite !for_recipes_flat, H.
Qed.

(** X2.  The aggregator returns exactly when no line makes the parser
    raise; otherwise it raises [OverflowError], the exception of one of its
    lines. *)
Theorem combine_returns_or_overflows (recipes : list Recipe) :
  (all_parse (all_lines recipes)
   /\ exists out, combine_ingredients recipes = Ok out)
  \/ (combine_ingredients recipes = Raise OverflowError
      /\ exists line, In line (all_lines recipes)
                      /\ _parse_quantity line = Raise OverflowError).
Proof.
  unfold combine_ingredients. rewrite for_recipes_flat.
  destruct (for_lines_result [] (all_lines recipes))
    as [[Hall [m' Hm]]|[Hr Hl]].
  - left. split; [exact Hall|]. rewrite Hm. simpl. eauto.
  - right. rewrite Hr. auto.
Qed.

Lemma combine_Ok_all_parse recipes out :
  combine_ingredients recipes = Ok out -> all_parse (all_lines recipes).
Proof.
  unfold combine_ingredients. rewrite for_recipes_flat.
  destruct (for_lines_result [] (all_lines recipes)) as [[Hall _]|[Hr _]];
    [intros _; exact Hall|rewrite Hr; discriminate].
Qed.

End AggregatorExtras.

Section AggregatorLocality.
Context {U : UnicodeData}.

Lemma combine_Ok_inv recipes out :
  combine_ingredients recipes = Ok out ->
  exists ps m,
    map fst ps = all_lines recipes
    /\ (forall lp, In lp ps -> _parse_quantity (fst lp) = Ok (snd lp))
    /\ merged_inv ps m
    /\ add_all [] ps = m
    /\ out = sorted (map snd m).
Proof.
  intros H. pose proof (combine_Ok_all_parse _ H) as Hall.
  destruct (for_lines_parsed [] Hall) as (ps & Hfst & Hps & Hfor).
  exists ps, (add_all [] ps).
  split; [exact Hfst|]. split; [exact Hps|]. split; [|split; [reflexivity|]].
  - apply (merged_inv_add_all (ps := []) ps merged_inv_nil).
  - unfold combine_ingredients in H. rewrite for_recipes_flat, Hfor in H.
    simpl in H. congruence.
Qed.

Lemma parsed_lines_eq ps :
  (forall lp, In lp ps -> _parse_quantity (fst lp) = Ok (snd lp)) ->
  parsed_lines (map fst ps) = ps.
Proof.
  induction ps as [|[l p] ps IH]; intros H; [reflexivity|].
  pose proof (H (l, p) (or_introl eq_refl)) as Hl. cbn [fst snd] in Hl.
  unfold parsed_lines in *. cbn [map fst flat_map]. rewrite Hl, IH; auto.
  intros lp Hlp. apply H. now right.
Qed.

Lemma replay_snoc g e lp :
  replay g = Some e -> replay (g ++ [lp]) = Some (merge_parsed e lp).
Proof.
  destruct g as [|[l0 p0] rest]; [discriminate|]. simpl.
  intros [= <-]. now rewrite fold_left_app.
Qed.

Lemma replay_step ps m l p :
  merged_inv ps m ->
  (forall k x, In (k, x) m -> replay (group k ps) = Some x) ->
  forall k x, In (k, x) (add_parsed m l p) ->
              replay (group k (ps ++ [(l, p)])) = Some x.
Proof.
  intros (Hnd & Hent & Hkeys) Hrep k x Hin.
  destruct p as [[qty unit] name].
  unfold add_parsed in Hin.
  assert (K : parsed_key (qty, unit, name) = key_of_name name) by reflexivity.
  set (p := (qty, unit, name)) in *.
  rewrite group_snoc. cbn [snd]. rewrite K.
  destruct (key_of_name name) as [|c key'] eqn:K0.
  - destruct (Hent k x Hin) as (Hk & _).
    assert (E : str_eqb [] k = false) by (apply str_eqb_neq; congruence).
    rewrite E, app_nil_r. auto.
  - set (key := c :: key') in *.
    destruct (dict_get m key) as [existing|] eqn:G.
    + apply In_dict_update in Hin; [|exact Hnd].
      destruct Hin as [[Hne Hin]|[-> ->]].
      * assert (E : str_eqb key k = false) by (apply str_eqb_neq; congruence).
        rewrite E, app_nil_r. auto.
      * rewrite str_eqb_refl. cbv iota.
        pose proof (Hrep _ _ (dict_get_Some_In _ _ G)) as He.
        exact (@replay_snoc _ _ (l, p) He).
    + pose proof (proj1 (dict_get_None_keys _ _) G) as Hnew.
      apply in_app_or in Hin. destruct Hin as [Hin|[Hin|[]]].
      * assert (E : str_eqb key k = false).
        { apply str_eqb_neq. intros <-. apply Hnew.
          change key with (fst (key, x)). now apply in_map. }
        rewrite E, app_nil_r. auto.
      * inversion Hin; subst k x; clear Hin. rewrite str_eqb_refl.
        assert (Hg : group key ps = []).
        { destruct (group key ps) as [|lp r] eqn:E; [reflexivity|].
          exfalso. apply Hnew.
          assert (Hin : In lp (group key ps)) by (rewrite E; now left).
          unfold group in Hin. apply filter_In in Hin. destruct Hin as [Hin Hk].
          apply str_eqb_eq in Hk. rewrite <- Hk. apply Hkeys; auto.
          rewrite Hk. discriminate. }
        rewrite Hg. reflexivity.
Qed.

Lemma replay_add_all qs :
  forall ps m,
  merged_inv ps m ->
  (forall k x, In (k, x) m -> replay (group k ps) = Some x) ->
  forall k x, In (k, x) (add_all m qs) ->
              replay (group k (ps ++ qs)) = Some x.
Proof.
  induction qs as [|[l p] qs IH]; intros ps m Hinv Hrep k x Hin; simpl in *.
  - rewrite app_nil_r. auto.
  - change (ps ++ (l, p) :: qs) with (ps ++ [(l, p)] ++ qs).
    rewrite app_assoc. eapply IH; [| |exact Hin].
    + now apply merged_inv_step.
    + now apply replay_step.
Qed.

(** X3.  No two items of the output have the same grouping key, nor the
    same lowercased name (the key of the sort, and of the check box that
    [grocery_list_ui] draws for the item), and no item has an empty key. *)
Theorem output_names_distinct (recipes : list Recipe) out :
  combine_ingredients recipes = Ok out ->
  NoDup (map sort_key out) /\ NoDup (map item_key out)
  /\ forall x, In x out -> item_key x <> [].
Proof.
  intros H. destruct (combine_Ok_inv _ H) as (ps & m & _ & _ & Hinv & _ & ->).
  assert (Hk : NoDup (map item_key (sorted (map snd m)))).
  { eapply Permutation_NoDup.
    - apply Permutation_map. apply Permutation_sym, sorted_perm.
    - rewrite (keys_of_values Hinv). apply Hinv. }
  split; [|split].
  - apply (NoDup_map_inv strip). rewrite map_map. exact Hk.
  - exact Hk.
  - intros x Hx. apply in_sorted_values in Hx. destruct Hx as [k Hx].
    destruct Hinv as (_ & Hent & _).
    destruct (Hent _ _ Hx) as (Hne & Hkey & _). congruence.
Qed.

(** X4.  An item depends on the lines of its own key only: it is what
    the first of them creates and the later ones, in their order, are merged
    into, whatever other lines stand between them. *)
Theorem item_replays_its_lines (recipes : list Recipe) out x :
  combine_ingredients recipes = Ok out ->
  In x out ->
  replay (group (item_key x) (parsed_lines (all_lines recipes))) = Some x.
Proof.
  intros H Hx.
  destruct (combine_Ok_inv _ H) as (ps & m & Hfst & Hps & Hinv & Hm & ->).
  apply in_sorted_values in Hx. destruct Hx as [k Hx].
  rewrite <- Hfst, (parsed_lines_eq _ Hps).
  pose proof Hinv as (_ & Hent & _).
  destruct (Hent _ _ Hx) as (_ & -> & _).
  apply (@replay_add_all ps [] [] merged_inv_nil); [intros ? ? []|].
  now rewrite Hm.
Qed.

Lemma fold_merge_same_unit u rest :
  forall e,
  item_unit e = u ->
  (forall lp, In lp rest -> parsed_unit (snd lp) = u) ->
  item_unit (fold_left merge_parsed rest e) = u
  /\ item_qty (fold_left merge_parsed rest e)
     = fold_left float_add (map (fun lp => parsed_qty (snd lp)) rest)
                 (item_qty e).
Proof.
  induction rest as [|[l [[q u'] n]] rest IH]; intros e He Hall; simpl.
  - auto.
  - assert (Hu : u' = u) by (apply (Hall (l, (q, u', n))); now left).
    subst u'.
    assert (Hm : item_unit (merge_existing e q u l) = u
                 /\ item_qty (merge_existing e q u l)
                    = float_add (item_qty e) q).
    { unfold merge_existing. rewrite He.
      destruct u as [|c u]; simpl; [auto|].
      unfold _try_convert. rewrite str_eqb_refl. simpl. auto. }
    destruct Hm as [Hmu Hmq].
    destruct (IH (merge_existing e q u l) Hmu) as [IHu IHq].
    { intros lp Hlp. apply Hall. now right. }
    unfold merge_parsed at 2 4. cbn [fst snd].
    split; [exact IHu|]. rewrite IHq, Hmq. reflexivity.
Qed.

(** X5.  When all the lines of an item's key carry the same unit (which
    may be the empty one), the item has that unit, and its quantity is the
    float sum of their amounts, added from the first to the last. *)
Theorem same_unit_lines_sum (recipes : list Recipe) out x u :
  combine_ingredients recipes = Ok out ->
  In x out ->
  (forall lp, In lp (group (item_key x) (parsed_lines (all_lines recipes))) ->
              parsed_unit (snd lp) = u) ->
  item_unit x = u
  /\ exists l0 p0 rest,
       group (item_key x) (parsed_lines (all_lines recipes)) = (l0, p0) :: rest
       /\ item_qty x
          = fold_left float_add (map (fun lp => parsed_qty (snd lp)) rest)
                      (parsed_qty p0).
Proof.
  intros H Hx Hall.
  pose proof H as H'.
  destruct (combine_Ok_inv _ H') as (ps & m & Hfst & Hps & Hinv & Hm & ->).
  assert (Hr : replay (group (item_key x) (parsed_lines (all_lines recipes)))
               = Some x).
  { apply in_sorted_values in Hx. destruct Hx as [k Hx].
    rewrite <- Hfst, (parsed_lines_eq _ Hps).
    pose proof Hinv as (_ & Hent & _).
    destruct (Hent _ _ Hx) as (_ & -> & _).
    apply (@replay_add_all ps [] [] merged_inv_nil); [intros ? ? []|].
    now rewrite Hm. }
  destruct (group (item_key x) (parsed_lines (all_lines recipes)))
    as [|[l0 p0] rest] eqn:G; [discriminate|].
  simpl in Hr. injection Hr as Hr.
  destruct (@fold_merge_same_unit u rest (new_item l0 p0)) as [Hu Hq].
  - destruct p0 as [[q0 u0] n0]. simpl.
    apply (Hall (l0, (q0, u0, n0))). now left.
  - intros lp Hlp. apply Hall. now right.
  - rewrite Hr in Hu, Hq. split; [exact Hu|].
    exists l0, p0, rest. split; [reflexivity|].
    rewrite Hq. destruct p0 as [[q0 u0] n0]. reflexivity.
Qed.

End AggregatorLocality.

Lemma combine_depends_on_lines_witness :
  @combine_ingredients ascii_only
     [recipe_of [lit "1 cup flour"; lit "2 eggs"]]
  = @combine_ingredients ascii_only
      [recipe_of [lit "1 cup flour"]; mkRecipe None; recipe_of [lit "2 eggs"]].
Proof.
  apply (@combine_depends_on_lines ascii_only). reflexivity.
Defined.

Lemma output_names_distinct_witness :
  exists out,
    @combine_ingredients ascii_only
       [recipe_of [lit "1 Tomato"; lit "2 eggs"; lit "3 tomato"]] = Ok out
    /\ NoDup (map (@sort_key ascii_only) out).
Proof.
  eexists. split; [vm_compute; reflexivity|].
  apply (@output_names_distinct ascii_only
           [recipe_of [lit "1 Tomato"; lit "2 eggs"; lit "3 tomato"]]).
  vm_compute. reflexivity.
Defined.

Lemma item_replays_its_lines_witness :
  replay (@group ascii_only (lit "flour")
                (@parsed_lines ascii_only
                   [lit "1 cup flour"; lit "2 eggs"; lit "200 g flour"]))
  = Some (mkItem (lit "flour") (float_of_Z 201) (lit "cup+g")
                 [lit "1 cup flour"; lit "200 g flour"]).
Proof.
  eapply (@item_replays_its_lines ascii_only
            [recipe_of [lit "1 cup flour"; lit "2 eggs"; lit "200 g flour"]]
            _ (mkItem (lit "flour") (float_of_Z 201) (lit "cup+g")
                      [lit "1 cup flour"; lit "200 g flour"])).
  - vm_compute. reflexivity.
  - vm_compute. auto.
Defined.

Lemma same_unit_lines_sum_witness :
  item_unit (mkItem (lit "eggs") (float_of_Z 5) []
                    [lit "2 eggs"; lit "3 eggs"]) = [].
Proof.
  eapply (@same_unit_lines_sum ascii_only
            [recipe_of [lit "2 eggs"; lit "1 cup flour"; lit "3 eggs"]]
            _ (mkItem (lit "eggs") (float_of_Z 5) []
                      [lit "2 eggs"; lit "3 eggs"])).
  - vm_compute. reflexivity.
  - vm_compute. auto.
  - intros lp Hlp. vm_compute in Hlp.
    destruct Hlp as [<-|[<-|[]]]; reflexivity.
Defined.

(* ================================================================= *)
(** * Further properties of the parser *)

Lemma drop_while_app_stop p l1 c l2 :
  p c = false -> drop_while p (l1 ++ c :: l2) = drop_while p l1 ++ c :: l2.
Proof.
  intros Hc. induction l1 as [|x l1 IH]; simpl.
  - now rewrite Hc.
  - destruct (p x); auto.
Qed.

Lemma take_while_app_all p l1 l2 :
  forallb p l1 = true -> take_while p (l1 ++ l2) = l1 ++ take_while p l2.
Proof.
  induction l1 as [|x l1 IH]; simpl; [reflexivity|].
  intros H. apply andb_true_iff in H. destruct H as [Hx Hl].
  rewrite Hx, IH; auto.
Qed.

Lemma drop_while_app_all p l1 l2 :
  forallb p l1 = true -> drop_while p (l1 ++ l2) = drop_while p l2.
Proof.
  induction l1 as [|x l1 IH]; simpl; [reflexivity|].
  intros H. apply andb_true_iff in H. destruct H as [Hx Hl].
  rewrite Hx. auto.
Qed.

Lemma drop_while_head p l :
  drop_while p l = [] \/ exists c r, drop_while p l = c :: r /\ p c = false.
Proof.
  induction l as [|x l IH]; simpl; [now left|].
  destruct (p x) eqn:E; [exact IH|]. right. now exists x, l.
Qed.

Lemma forallb_drop_while (q p : char -> bool) l :
  forallb q l = true -> forallb q (drop_while p l) = true.
Proof.
  induction l as [|x l IH]; simpl; [reflexivity|].
  intros H. destruct (p x); [|exact H].
  apply andb_true_iff in H. now apply IH.
Qed.

Lemma rstrip_by_app_stop p l1 c l2 :
  p c = false -> rstrip_by p (l1 ++ c :: l2) = l1 ++ c :: rstrip_by p l2.
Proof.
  intros Hc. unfold rstrip_by.
  rewrite rev_app_distr. simpl. rewrite <- app_assoc. simpl.
  rewrite (@drop_while_app_stop _ _ _ _ Hc).
  rewrite rev_app_distr. simpl. rewrite rev_involutive, <- app_assoc.
  reflexivity.
Qed.

(** Stripping around a middle part that starts and ends with characters
    that stay. *)
Lemma strip_by_middle p l1 mid l2 :
  mid <> [] -> forallb (fun c => negb (p c)) mid = true ->
  strip_by p (l1 ++ mid ++ l2) = drop_while p l1 ++ mid ++ rstrip_by p l2.
Proof.
  intros Hne Hmid. unfold strip_by, lstrip_by.
  destruct mid as [|c1 m]; [contradiction|].
  assert (Hc1 : p c1 = false).
  { simpl in Hmid. apply andb_true_iff in Hmid.
    destruct Hmid as [H _]. now apply negb_true_iff in H. }
  simpl app at 2. rewrite (@drop_while_app_stop _ _ _ _ Hc1).
  destruct (exists_last Hne) as (m' & c2 & Hm').
  assert (Hc2 : p c2 = false).
  { rewrite Hm', forallb_app in Hmid. apply andb_true_iff in Hmid.
    destruct Hmid as [_ H]. simpl in H. rewrite andb_true_r in H.
    now apply negb_true_iff in H. }
  change (c1 :: m ++ l2) with ((c1 :: m) ++ l2). rewrite Hm'.
  rewrite <- app_assoc. simpl app at 3. rewrite app_assoc.
  rewrite (@rstrip_by_app_stop _ _ _ _ Hc2). rewrite <- !app_assoc. reflexivity.
Qed.

Lemma fold_replace_app ms x y :
  fold_left (fun acc '(vf, frac) => replace vf frac acc) ms (x ++ y)
  = fold_left (fun acc '(vf, frac) => replace vf frac acc) ms x
    ++ fold_left (fun acc '(vf, frac) => replace vf frac acc) ms y.
Proof.
  revert x y. induction ms as [|[vf frac] ms IH]; intros x y;
    [reflexivity|].
  cbn [fold_left].
  assert (E : replace vf frac (x ++ y)
              = replace vf frac x ++ replace vf frac y)
    by apply flat_map_app.
  rewrite E. apply IH.
Qed.

Lemma replace_vulgar_app x y :
  replace_vulgar (x ++ y) = replace_vulgar x ++ replace_vulgar y.
Proof. apply fold_replace_app. Qed.

Lemma replace_vulgar_glyph g frac :
  In (g, frac) _VULGAR_MAP ->
  replace_vulgar [g] = frac /\ replace_vulgar frac = frac
  /\ frac <> []
  /\ forallb (fun c => negb (is_space c)) frac = true
  /\ is_space g = false.
Proof.
  intros H. simpl in H.
  repeat (destruct H as [H|H];
          [inversion H; subst; repeat split; try reflexivity; discriminate|]).
  contradiction.
Qed.

Section ParserExtras.
Context {U : UnicodeData}.

Lemma glyph_is_qty_char g frac :
  In (g, frac) _VULGAR_MAP ->
  is_qty_char g = true /\ forallb is_qty_char frac = true.
Proof.
  intros H. simpl in H.
  repeat (destruct H as [H|H];
          [inversion H; subst; split;
           [unfold is_qty_char; destruct (is_decimal _); reflexivity
           |reflexivity]|]).
  contradiction.
Qed.

(** The match of [_QTY_RE] on a text that starts, without white space,
    with quantity characters [run] which stop at [rest]. *)
Lemma QTY_RE_match_run run rest :
  run <> [] ->
  forallb is_qty_char run = true ->
  (exists c r, run = c :: r /\ is_space c = false) ->
  _QTY_RE_match (run ++ rest)
  = Some (run ++ take_while is_qty_char rest,
          match take_while is_unit_char (drop_while is_qty_char rest) with
          | [] => None
          | g2 => Some g2
          end,
          take_while (fun c => negb (c =? 10)%N)
            (drop_while is_space
               (drop_while is_unit_char (drop_while is_qty_char rest)))).
Proof.
  intros Hne Hall (c & r & -> & Hc).
  unfold _QTY_RE_match.
  assert (Hd : drop_while is_space ((c :: r) ++ rest) = (c :: r) ++ rest)
    by (simpl; now rewrite Hc).
  rewrite Hd.
  rewrite (@take_while_app_all _ _ _ Hall), (@drop_while_app_all _ _ _ Hall).
  simpl app. cbv iota.
  destruct (take_while is_unit_char (drop_while is_qty_char rest));
    reflexivity.
Qed.

(** X6.  A line that, once trimmed, is empty or starts with a character
    outside the quantity class (no digit, white space, slash, dot or vulgar
    glyph) comes back whole as the name, with amount 0.0 and no unit. *)
Theorem no_leading_quantity_fallback (text : str) :
  strip text = []
  \/ (exists c r, strip text = c :: r /\ is_qty_char c = false) ->
  _parse_quantity text = Ok (float_zero, [], strip text).
Proof.
  intros H. unfold _parse_quantity.
  assert (Hm : _QTY_RE_match (strip text) = None).
  { destruct H as [->|(c & r & -> & Hc)]; [reflexivity|].
    unfold _QTY_RE_match.
    assert (Hs : is_space c = false).
    { unfold is_qty_char in Hc.
      destruct (is_space c); [|reflexivity].
      now rewrite orb_true_r in Hc. }
    simpl. rewrite Hs. simpl. rewrite Hc. reflexivity. }
  now rewrite Hm.
Qed.

(** X7.  A vulgar-fraction glyph in the quantity of a line can be written
    out as its ASCII form [a/b]: unless the line degrades to the fallback
    (whose name is the line itself), both lines parse to the same result. *)
Theorem vulgar_glyph_equivalence (pre post : str) (g : char) (frac : str) :
  In (g, frac) _VULGAR_MAP ->
  forallb is_qty_char pre = true ->
  _parse_quantity (pre ++ g :: post)
  <> Ok (float_zero, [], strip (pre ++ g :: post)) ->
  _parse_quantity (pre ++ frac ++ post) = _parse_quantity (pre ++ g :: post).
Proof.
  intros Hin Hpre Hne.
  destruct (@replace_vulgar_glyph _ _ Hin) as (Hrg & Hrf & Hfne & Hfsp & Hgsp).
  destruct (@glyph_is_qty_char _ _ Hin) as [Hgq Hfq].
  set (a := drop_while is_space pre).
  set (b := rstrip_by is_space post).
  assert (Ha : forallb is_qty_char a = true) by now apply forallb_drop_while.
  (* the two trimmed lines *)
  assert (Sg : strip (pre ++ g :: post) = (a ++ [g]) ++ b).
  { change (pre ++ g :: post) with (pre ++ [g] ++ post).
    unfold strip. rewrite strip_by_middle; [now rewrite <- app_assoc|discriminate|].
    simpl. now rewrite Hgsp. }
  assert (Sf : strip (pre ++ frac ++ post) = (a ++ frac) ++ b).
  { unfold strip. rewrite strip_by_middle; auto. now rewrite <- app_assoc. }
  (* both start with a character that is not white space *)
  assert (Hhead : forall mid, mid <> [] ->
            forallb (fun c => negb (is_space c)) mid = true ->
            exists c r, a ++ mid = c :: r /\ is_space c = false).
  { intros mid Hmne Hmsp. unfold a.
    destruct (drop_while_head is_space pre) as [->|(c & r & -> & Hc)].
    - destruct mid as [|c m]; [contradiction|]. exists c, m. split; auto.
      simpl in Hmsp. apply andb_true_iff in Hmsp.
      destruct Hmsp as [H _]. now apply negb_true_iff in H.
    - exists c, (r ++ mid). auto. }
  assert (Hg1 : forall mid, mid <> [] ->
            forallb (fun c => negb (is_space c)) mid = true ->
            strip ((a ++ mid) ++ take_while is_qty_char b)
            = a ++ mid ++ rstrip_by is_space (take_while is_qty_char b)).
  { intros mid Hmne Hmsp. rewrite <- app_assoc. unfold strip.
    rewrite strip_by_middle; auto.
    destruct (drop_while_head is_space pre) as [E|(c & r & E & Hc)];
      fold a in E; rewrite E; [reflexivity|].
    simpl. now rewrite Hc. }
  assert (Hgsp' : forallb (fun c => negb (is_space c)) [g] = true)
    by (simpl; now rewrite Hgsp).
  assert (Hgne : [g] <> []) by discriminate.
  assert (Rq : replace_vulgar (strip ((a ++ frac) ++ take_while is_qty_char b))
               = replace_vulgar (strip ((a ++ [g]) ++ take_while is_qty_char b))).
  { rewrite (Hg1 frac Hfne Hfsp), (Hg1 [g] Hgne Hgsp').
    rewrite !replace_vulgar_app, Hrg, Hrf. reflexivity. }
  revert Hne. unfold _parse_quantity. rewrite Sg, Sf.
  rewrite (@QTY_RE_match_run (a ++ frac) b), (@QTY_RE_match_run (a ++ [g]) b);
    auto.
  - rewrite Rq.
    destruct (eval_quantity _) as [q|[| |]]; try reflexivity;
      intros Hne; exfalso; apply Hne; reflexivity.
  - intros E. apply app_eq_nil in E. destruct E as [_ E]. discriminate.
  - rewrite forallb_app, Ha. simpl. now rewrite Hgq.
  - intros E. apply app_eq_nil in E. destruct E as [_ E]. contradiction.
  - now rewrite forallb_app, Ha.
Qed.

End ParserExtras.

Lemma no_leading_quantity_fallback_witness :
  @_parse_quantity ascii_only (lit "  salt to taste ")
  = Ok (float_zero, [], lit "salt to taste").
Proof.
  apply (@no_leading_quantity_fallback ascii_only (lit "  salt to taste ")).
  right. exists 115%N, (lit "alt to taste"). split; reflexivity.
Defined.

Lemma vulgar_glyph_equivalence_witness :
  @_parse_quantity ascii_only (lit "1/2 cup sugar")
  = @_parse_quantity ascii_only (0xBD%N :: lit " cup sugar").
Proof.
  apply (@vulgar_glyph_equivalence ascii_only [] (lit " cup sugar")
           0xBD%N (lit "1/2")).
  - left. reflexivity.
  - reflexivity.
  - vm_compute. discriminate.
Defined.

(* ================================================================= *)
(** * The formatter *)

Section LimitDenominator.
Local Open Scope Z_scope.

Lemma Fraction_of_pos n d :
  0 < d ->
  0 < denominator (Fraction_of n d)
  /\ numerator (Fraction_of n d) * d = n * denominator (Fraction_of n d)
  /\ Z.gcd (numerator (Fraction_of n d)) (denominator (Fraction_of n d)) = 1.
Proof.
  intros Hd. unfold Fraction_of.
  destruct (Z.ltb_spec d 0) as [?|_]; [lia|]. cbn [numerator denominator].
  pose proof (Z.gcd_nonneg n d) as Hg0.
  assert (Hg : Z.gcd n d <> 0) by (rewrite Z.gcd_eq_0; lia).
  assert (Hc : Z.gcd (n / Z.gcd n d) (d / Z.gcd n d) = 1)
    by (apply Z.gcd_div_gcd; auto).
  destruct (Z.gcd_divide_l n d) as [a Ha].
  destruct (Z.gcd_divide_r n d) as [b Hb].
  remember (Z.gcd n d) as g eqn:Eg. clear Eg.
  assert (Ea : n / g = a) by (rewrite Ha; apply Z.div_mul; exact Hg).
  assert (Eb : d / g = b) by (rewrite Hb; apply Z.div_mul; exact Hg).
  rewrite Ea, Eb in *. repeat split; [nia|nia|exact Hc].
Qed.

Lemma Fraction_of_coprime n d :
  0 < d -> Z.gcd n d = 1 -> Fraction_of n d = mkFraction n d.
Proof.
  intros Hd Hg. unfold Fraction_of.
  destruct (Z.ltb_spec d 0) as [?|_]; [lia|].
  now rewrite Hg, !Z.div_1_r.
Qed.

Lemma det_coprime A B C E :
  C * B - A * E = 1 \/ C * B - A * E = -1 -> Z.gcd A B = 1.
Proof.
  intros H.
  assert (Hd : (Z.gcd A B | C * B - A * E)).
  { apply Z.divide_sub_r.
    - apply Z.divide_mul_r, Z.gcd_divide_r.
    - apply Z.divide_mul_l, Z.gcd_divide_l. }
  apply Z.divide_1_r_nonneg; [apply Z.gcd_nonneg|].
  destruct H as [H|H]; rewrite H in Hd; [exact Hd|].
  now apply Z.divide_opp_r in Hd.
Qed.

(** The loop of [limit_denominator]: with [N/D] in lowest terms and
    [D > max_denominator], it leaves by [break] before the fuel is spent,
    never divides by zero, and keeps the relations between the
    convergents. *)
Lemma limit_loop_spec maxd N D :
  1 <= maxd -> maxd < D -> Z.gcd N D = 1 ->
  forall fuel p0 q0 p1 q1 n d,
    p1 * n + p0 * d = N ->
    q1 * n + q0 * d = D ->
    (p1 * q0 - p0 * q1 = 1 \/ p1 * q0 - p0 * q1 = -1) ->
    0 <= q0 <= maxd -> 0 <= q1 <= maxd ->
    ((q1 = 0 /\ q0 = 1 /\ 0 < d)
     \/ (1 <= q1 /\ 0 <= d < n /\ (1 <= q0 \/ q1 = 1))) ->
    maxd + 2 <= Z.of_nat fuel + q1
                + (if (q0 =? 0) || (q1 =? 0) then 0 else 1) ->
    exists p0' q0' p1' q1' n' d',
      limit_loop fuel maxd p0 q0 p1 q1 n d = Some (Ok (p0', q0', p1', q1'))
      /\ p1' * n' + p0' * d' = N
      /\ q1' * n' + q0' * d' = D
      /\ (p1' * q0' - p0' * q1' = 1 \/ p1' * q0' - p0' * q1' = -1)
      /\ 0 <= q0' <= maxd /\ 1 <= q1' <= maxd
      /\ 0 < d' < n'
      /\ (1 <= q0' \/ q1' = 1)
      /\ maxd < q0' + (n' / d') * q1'.
Proof.
  intros Hmax HD Hgcd fuel.
  induction fuel as [|fuel IH];
    intros p0 q0 p1 q1 n d I1 I2 Idet Hq0 Hq1 Hphase Hfuel.
  - exfalso. destruct ((q0 =? 0) || (q1 =? 0)); lia.
  - cbn [limit_loop].
    destruct (Z.eqb_spec d 0) as [Hd0|Hd0].
    + (* the remainder cannot vanish while the denominator is in range *)
      exfalso. destruct Hphase as [(_ & _ & ?)|(Hq1' & Hdn & _)]; [lia|].
      subst d. rewrite Z.mul_0_r, Z.add_0_r in I1, I2.
      assert (Hn : (n | Z.gcd N D)).
      { apply Z.gcd_greatest; [exists p1|exists q1]; lia. }
      rewrite Hgcd in Hn. apply Z.divide_1_r_nonneg in Hn; [|lia].
      subst n. lia.
    + assert (Hdpos : 0 < d) by (destruct Hphase as [?|(_ & ? & _)]; lia).
      pose proof (Z.div_mod n d Hd0) as Hdm.
      pose proof (Z.mod_pos_bound n d Hdpos) as Hmod.
      set (a := n / d) in *.
      destruct (Z.ltb_spec maxd (q0 + a * q1)) as [Hbr|Hbr].
      * (* break *)
        destruct Hphase as [(-> & -> & _)|(Hq1' & Hdn & Hq01)].
        { exfalso. lia. }
        exists p0, q0, p1, q1, n, d. repeat split; auto; try lia.
      * (* one more round *)
        assert (Ha : q1 = 0 \/ 1 <= a).
        { destruct Hphase as [(? & _)|(_ & Hdn & _)]; [now left|right].
          unfold a. apply Z.div_le_lower_bound; lia. }
        apply IH.
        -- rewrite <- I1. unfold a. ring.
        -- rewrite <- I2. unfold a. ring.
        -- destruct Idet as [Hs|Hs]; [right|left];
             match goal with
             | |- ?l = _ => replace l with (- (p1 * q0 - p0 * q1)) by ring
             end; lia.
        -- lia.
        -- split; [|lia]. destruct Hphase as [(-> & -> & _)|(? & _ & _)]; nia.
        -- right. split; [|split].
           ++ destruct Hphase as [(-> & -> & _)|(? & _ & _)]; nia.
           ++ unfold a. nia.
           ++ destruct Hphase as [(-> & -> & _)|(? & _ & _)]; [right|left]; lia.
        -- rewrite Nat2Z.inj_succ in Hfuel.
           destruct (Z.eqb_spec q0 0), (Z.eqb_spec q1 0),
             (Z.eqb_spec (q0 + a * q1) 0);
             cbn [orb] in Hfuel |- *;
             destruct Hphase as [(? & ? & _)|(Hq1' & Hdn & [Hq0'|Hq1''])];
             nia.
Qed.

(** Comparing the distances of two fractions, given by any numerators
    and positive denominators. *)
Lemma abs_leb_cross f1 f2 u1 v1 u2 v2 :
  0 < v1 -> 0 < v2 -> 0 < denominator f1 -> 0 < denominator f2 ->
  numerator f1 * v1 = u1 * denominator f1 ->
  numerator f2 * v2 = u2 * denominator f2 ->
  (Fraction_leb (Fraction_abs f1) (Fraction_abs f2) = true
   <-> Z.abs u1 * v2 <= Z.abs u2 * v1).
Proof.
  intros Hv1 Hv2 Hd1 Hd2 E1 E2.
  unfold Fraction_leb, Fraction_abs. cbn [numerator denominator].
  rewrite Z.leb_le.
  assert (A1 : Z.abs (numerator f1) * v1 = Z.abs u1 * denominator f1).
  { apply (f_equal Z.abs) in E1. rewrite !Z.abs_mul in E1.
    rewrite (Z.abs_eq v1), (Z.abs_eq (denominator f1)) in E1 by lia.
    exact E1. }
  assert (A2 : Z.abs (numerator f2) * v2 = Z.abs u2 * denominator f2).
  { apply (f_equal Z.abs) in E2. rewrite !Z.abs_mul in E2.
    rewrite (Z.abs_eq v2), (Z.abs_eq (denominator f2)) in E2 by lia.
    exact E2. }
  pose proof (Z.abs_nonneg (numerator f1)).
  pose proof (Z.abs_nonneg (numerator f2)).
  pose proof (Z.abs_nonneg u1). pose proof (Z.abs_nonneg u2).
  set (n1 := Z.abs (numerator f1)) in *. set (n2 := Z.abs (numerator f2)) in *.
  set (a1 := Z.abs u1) in *. set (a2 := Z.abs u2) in *.
  set (d1 := denominator f1) in *. set (d2 := denominator f2) in *.
  split; intros Hle.
  - apply (Z.mul_le_mono_pos_r _ _ (d1 * d2)); [nia|].
    replace (a1 * v2 * (d1 * d2)) with ((a1 * d1) * (v2 * d2)) by ring.
    replace (a2 * v1 * (d1 * d2)) with ((a2 * d2) * (v1 * d1)) by ring.
    rewrite <- A1, <- A2.
    replace (n1 * v1 * (v2 * d2)) with ((n1 * d2) * (v1 * v2)) by ring.
    replace (n2 * v2 * (v1 * d1)) with ((n2 * d1) * (v1 * v2)) by ring.
    apply Z.mul_le_mono_nonneg_r; nia.
  - apply (Z.mul_le_mono_pos_r _ _ (v1 * v2)); [nia|].
    replace (n1 * d2 * (v1 * v2)) with ((n1 * v1) * (v2 * d2)) by ring.
    replace (n2 * d1 * (v1 * v2)) with ((n2 * v2) * (v1 * d1)) by ring.
    rewrite A1, A2.
    replace (a1 * d1 * (v2 * d2)) with ((a1 * v2) * (d1 * d2)) by ring.
    replace (a2 * d2 * (v1 * d1)) with ((a2 * v1) * (d1 * d2)) by ring.
    apply Z.mul_le_mono_nonneg_r; nia.
Qed.

End LimitDenominator.

Section BestApproximation.
Local Open Scope Z_scope.

(** A fraction of denominator at most [maxd] is not strictly between two
    neighbouring fractions [A/B < C/E] (with [C*B - A*E = 1]) whose
    denominators add up to more than [maxd]; so it is at least as far from
    any number between the two as one of them is. *)
Lemma neighbours_are_best N D A B C E maxd d1 d2 :
  0 < D -> 0 < B -> 0 < E -> maxd < B + E ->
  C * B - A * E = 1 ->
  N * B - A * D = d1 -> C * D - N * E = d2 -> 0 < d1 -> 0 < d2 ->
  forall p q, 1 <= q <= maxd ->
    d1 * q <= Z.abs (N * q - p * D) * B
    \/ d2 * q <= Z.abs (N * q - p * D) * E.
Proof.
  intros HD HB HE Hsum Hdet H1 H2 Hd1 Hd2 p q Hq.
  destruct (Z_le_gt_dec (p * B) (A * q)) as [Hlo|Hlo].
  - left. assert (d1 * q <= (N * q - p * D) * B) by nia.
    assert (N * q - p * D <= Z.abs (N * q - p * D)) by lia. nia.
  - destruct (Z_le_gt_dec (C * q) (p * E)) as [Hhi|Hhi].
    + right. assert (d2 * q <= (p * D - N * q) * E) by nia.
      assert (p * D - N * q <= Z.abs (p * D - N * q)) by lia.
      replace (Z.abs (N * q - p * D)) with (Z.abs (p * D - N * q))
        by (rewrite <- Z.abs_opp; f_equal; ring).
      nia.
    + exfalso.
      assert (Eq : q = B * (C * q - p * E) + E * (p * B - A * q)).
      { transitivity (q * (C * B - A * E)); [rewrite Hdet; ring|ring]. }
      nia.
Qed.

Lemma choose_closer d1 d2 B E ab q :
  0 < B -> 0 < E -> 0 <= q -> 0 <= ab ->
  d1 * q <= ab * B \/ d2 * q <= ab * E ->
  (d2 * B <= d1 * E -> d2 * q <= ab * E)
  /\ (d1 * E < d2 * B -> d1 * q <= ab * B).
Proof.
  intros HB HE Hq Hab H. split; intros Hc; destruct H as [H|H]; nia.
Qed.

Lemma limit_denominator_spec maxd x :
  1 <= maxd -> 0 < denominator x ->
  Z.gcd (numerator x) (denominator x) = 1 ->
  exists f,
    limit_denominator maxd x = Some (Ok f)
    /\ best_approximation maxd x f
    /\ Z.gcd (numerator f) (denominator f) = 1.
Proof.
  intros Hmax HD Hgcd. unfold limit_denominator.
  destruct (Z.ltb_spec maxd 1) as [?|_]; [lia|].
  destruct (Z.leb_spec (denominator x) maxd) as [Hsmall|Hbig].
  { exists x. split; [reflexivity|]. split; [|exact Hgcd].
    split; [lia|]. intros p q Hq.
    replace (numerator x * denominator x - numerator x * denominator x)
      with 0 by ring.
    pose proof (Z.abs_nonneg (numerator x * q - p * denominator x)).
    simpl. nia. }
  set (N := numerator x) in *. set (D := denominator x) in *.
  destruct (@limit_loop_spec maxd N D Hmax Hbig Hgcd
              (Z.to_nat maxd + 2) 0 1 1 0 N D)
    as (p0 & q0 & p1 & q1 & n & d & Hloop & I1 & I2 & Idet
        & Hq0 & Hq1 & Hdn & Hq01 & Hbr); try lia.
  { rewrite Nat2Z.inj_add, Z2Nat.id by lia. simpl. lia. }
  rewrite Hloop.
  destruct (Z.eqb_spec q1 0) as [?|_]; [lia|].
  set (k := (maxd - q0) / q1).
  assert (Hq1pos : 0 < q1) by lia.
  pose proof (Z.div_mod (maxd - q0) q1 ltac:(lia)) as Hkdm.
  pose proof (Z.mod_pos_bound (maxd - q0) q1 Hq1pos) as Hkmod.
  fold k in Hkdm.
  assert (Hk0 : 0 <= k) by (apply Z.div_pos; lia).
  set (B := q0 + k * q1) in *.
  assert (HB : 1 <= B <= maxd).
  { split; [|unfold B; nia]. destruct Hq01 as [?|Hq1e]; [unfold B; nia|].
    unfold B, k. rewrite Hq1e, Z.div_1_r. lia. }
  assert (HBsum : maxd < B + q1) by (unfold B; nia).
  destruct (Z.eqb_spec B 0) as [?|_]; [lia|].
  set (A := p0 + k * p1) in *.
  (* the candidate from below the break is still on the other side of x *)
  pose proof (Z.mul_div_le n d ltac:(lia)) as Had.
  assert (Hka : k < n / d) by (unfold B in HB; nia).
  assert (Hd1 : 0 < n - k * d) by nia.
  assert (Hdet' : p1 * B - A * q1 = p1 * q0 - p0 * q1)
    by (unfold A, B; ring).
  assert (E1 : N * B - A * D = (p1 * q0 - p0 * q1) * (n - k * d))
    by (rewrite <- I1, <- I2; unfold A, B; ring).
  assert (E2 : p1 * D - N * q1 = (p1 * q0 - p0 * q1) * d)
    by (rewrite <- I1, <- I2; ring).
  assert (GA : Z.gcd A B = 1).
  { apply (@det_coprime A B p1 q1). rewrite Hdet'. exact Idet. }
  assert (GC : Z.gcd p1 q1 = 1).
  { apply (@det_coprime p1 q1 A B).
    replace (A * q1 - p1 * B) with (- (p1 * B - A * q1)) by ring.
    rewrite Hdet'. lia. }
  rewrite (@Fraction_of_coprime A B), (@Fraction_of_coprime p1 q1);
    try lia; auto.
  (* the test of the two distances, cross-multiplied *)
  assert (Hv2 : 0 < q1 * D) by (apply Z.mul_pos_pos; lia).
  assert (Hv1 : 0 < B * D) by (apply Z.mul_pos_pos; lia).
  destruct (@Fraction_of_pos (p1 * D - N * q1) (q1 * D) Hv2)
    as (S2d & S2e & _).
  destruct (@Fraction_of_pos (A * D - N * B) (B * D) Hv1)
    as (S1d & S1e & _).
  assert (Htest :
    Fraction_leb (Fraction_abs (Fraction_sub (mkFraction p1 q1) x))
                 (Fraction_abs (Fraction_sub (mkFraction A B) x)) = true
    <-> d * B <= (n - k * d) * q1).
  { unfold Fraction_sub. cbn [numerator denominator]. fold N D.
    rewrite (@abs_leb_cross _ _ (p1 * D - N * q1) (q1 * D)
                            (A * D - N * B) (B * D) Hv2 Hv1 S2d S1d S2e S1e).
    replace (A * D - N * B) with (- (N * B - A * D)) by ring.
    rewrite Z.abs_opp, E1, E2, !Z.abs_mul.
    assert (Hs : Z.abs (p1 * q0 - p0 * q1) = 1) by lia.
    rewrite Hs, (Z.abs_eq d), (Z.abs_eq (n - k * d)), !Z.mul_1_l by lia.
    replace (d * (B * D)) with (d * B * D) by ring.
    replace ((n - k * d) * (q1 * D)) with ((n - k * d) * q1 * D) by ring.
    symmetry. apply Z.mul_le_mono_pos_r. exact HD. }
  (* both candidates, seen from x *)
  assert (Hbest : forall p q, 1 <= q <= maxd ->
            (n - k * d) * q <= Z.abs (N * q - p * D) * B
            \/ d * q <= Z.abs (N * q - p * D) * q1).
  { intros p q Hq. destruct Idet as [Hs|Hs].
    - apply (@neighbours_are_best N D A B p1 q1 maxd (n - k * d) d);
        first [lia | rewrite E1, Hs; ring | rewrite E2, Hs; ring].
    - (* the mirror image: negate the numerators *)
      assert (M1 : - p1 * B - - A * q1 = 1)
        by (replace (- p1 * B - - A * q1) with (- (p1 * B - A * q1)) by ring;
            lia).
      assert (M2 : - N * B - - A * D = n - k * d)
        by (replace (- N * B - - A * D) with (- (N * B - A * D)) by ring;
            rewrite E1, Hs; ring).
      assert (M3 : - p1 * D - - N * q1 = d)
        by (replace (- p1 * D - - N * q1) with (- (p1 * D - N * q1)) by ring;
            rewrite E2, Hs; ring).
      destruct (@neighbours_are_best (- N) D (- A) B (- p1) q1 maxd
                  (n - k * d) d ltac:(lia) ltac:(lia) ltac:(lia) HBsum
                  M1 M2 M3 Hd1 ltac:(lia) (- p) q Hq) as [H|H];
        [left|right];
        replace (- N * q - - p * D) with (- (N * q - p * D)) in H by ring;
        now rewrite Z.abs_opp in H. }
  assert (Hs : Z.abs (p1 * q0 - p0 * q1) = 1) by lia.
  destruct (Fraction_leb _ _) eqn:T.
  - exists (mkFraction p1 q1). split; [reflexivity|]. split; [|exact GC].
    pose proof (proj1 Htest eq_refl) as T2.
    split; [cbn [denominator]; lia|]. intros p q Hq.
    cbn [numerator denominator]. fold N D.
    replace (N * q1 - p1 * D) with (- (p1 * D - N * q1)) by ring.
    rewrite Z.abs_opp, E2, Z.abs_mul, Hs, (Z.abs_eq d), Z.mul_1_l by lia.
    apply (@choose_closer (n - k * d) d B q1 (Z.abs (N * q - p * D)) q);
      try lia; auto.
  - exists (mkFraction A B). split; [reflexivity|]. split; [|exact GA].
    assert (T' : (n - k * d) * q1 < d * B).
    { destruct (Z_lt_le_dec ((n - k * d) * q1) (d * B)) as [?|Hle];
        [assumption|].
      apply (proj2 Htest) in Hle. discriminate. }
    split; [cbn [denominator]; lia|]. intros p q Hq.
    cbn [numerator denominator]. fold N D.
    rewrite E1, Z.abs_mul, Hs, (Z.abs_eq (n - k * d)), Z.mul_1_l by lia.
    apply (@choose_closer (n - k * d) d B q1 (Z.abs (N * q - p * D)) q);
      try lia; auto.
Qed.

End BestApproximation.

Section FormatterProperties.
Local Open Scope Z_scope.

Lemma Fraction_of_float_finite qty :
  is_finite qty = true ->
  exists x, Fraction_of_float qty = Ok x
            /\ 0 < denominator x
            /\ Z.gcd (numerator x) (denominator x) = 1.
Proof.
  destruct qty as [s|s| |s m e]; try discriminate; intros _.
  - exists (mkFraction 0 1). repeat split.
  - unfold Fraction_of_float. destruct (0 <=? e) eqn:E.
    + eexists. split; [reflexivity|]. cbn [numerator denominator].
      split; [lia|apply Z.gcd_1_r].
    + eexists. split; [reflexivity|].
      apply Z.leb_gt in E.
      assert (Hp : 0 < 2 ^ (- e)) by (apply Z.pow_pos_nonneg; lia).
      destruct (@Fraction_of_pos (cond_Zopp s (Z.pos m)) _ Hp) as (? & _ & ?).
      auto.
Qed.

Lemma int_of_float_finite qty :
  is_finite qty = true <-> exists i, int_of_float qty = Ok i.
Proof.
  destruct qty as [s|s| |s m e]; simpl; split; try discriminate; eauto;
    intros [i H]; discriminate.
Qed.

(** The remainder of a mixed number, for a fraction in lowest terms. *)
Lemma Fraction_sub_int_whole f :
  0 < denominator f -> Z.gcd (numerator f) (denominator f) = 1 ->
  Fraction_sub_int f (numerator f / denominator f)
  = mkFraction (numerator f mod denominator f) (denominator f).
Proof.
  intros Hd Hg. unfold Fraction_sub_int.
  replace (numerator f - numerator f / denominator f * denominator f)
    with (numerator f mod denominator f)
    by (rewrite Z.mod_eq by lia; ring).
  apply Fraction_of_coprime; [exact Hd|].
  rewrite Z.gcd_mod by lia. now rewrite Z.gcd_comm.
Qed.

(** The text of the [try] body for the fraction [f] that
    [limit_denominator] has returned. *)
Lemma format_fraction_text qty x :
  Fraction_of_float qty = Ok x ->
  0 < denominator x -> Z.gcd (numerator x) (denominator x) = 1 ->
  exists f,
    limit_denominator 16 x = Some (Ok f)
    /\ best_approximation 16 x f
    /\ Z.gcd (numerator f) (denominator f) = 1
    /\ format_fraction qty
       = Some (Ok (if denominator f <? numerator f then
                     if numerator f mod denominator f =? 0
                     then str_of_int (numerator f / denominator f)
                     else str_of_int (numerator f / denominator f)
                          ++ lit " "
                          ++ str_of_int (numerator f mod denominator f)
                          ++ lit "/" ++ str_of_int (denominator f)
                   else str_of_Fraction f)).
Proof.
  intros Hx HD Hg.
  destruct (@limit_denominator_spec 16 x ltac:(lia) HD Hg)
    as (f & Hf & Hbest & Hfg).
  exists f. split; [exact Hf|]. split; [exact Hbest|]. split; [exact Hfg|].
  unfold format_fraction. rewrite Hx, Hf.
  destruct Hbest as [Hfd _].
  destruct (denominator f <? numerator f); [|reflexivity].
  rewrite Fraction_sub_int_whole by (auto; lia).
  cbn [numerator]. destruct (Z.eqb_spec (numerator f mod denominator f) 0)
    as [E|E]; [reflexivity|].
  unfold str_of_Fraction. cbn [numerator denominator].
  destruct (Z.eqb_spec (denominator f) 1) as [E1|E1]; [|reflexivity].
  exfalso. apply E. rewrite E1. apply Z.mod_1_r.
Qed.

(** X8.  The formatter returns a text exactly for the finite floats; it
    raises [OverflowError] exactly for the two infinities and [ValueError]
    exactly for a NaN, both from [int(qty)], which stands before the
    [try]. *)
Theorem format_qty_returns_on_finite (qty : float) :
  (is_finite qty = true <-> exists s, _format_qty qty = Some (Ok s))
  /\ ((exists sign, qty = S754_infinity sign)
      <-> _format_qty qty = Some (Raise OverflowError))
  /\ (qty = S754_nan <-> _format_qty qty = Some (Raise ValueError)).
Proof.
  assert (Hfinite : is_finite qty = true ->
                    exists s, _format_qty qty = Some (Ok s)).
  { intros Hfin. unfold _format_qty.
    destruct (float_eqb_int qty 0); [eauto|].
    destruct (proj1 (int_of_float_finite qty) Hfin) as [i ->].
    destruct (float_eqb_int qty i); [eauto|].
    destruct (Fraction_of_float_finite qty Hfin) as (x & Hx & HD & Hg).
    destruct (format_fraction_text qty Hx HD Hg) as (f & _ & _ & _ & ->).
    eauto. }
  assert (Hinf : forall sign,
            _format_qty (S754_infinity sign) = Some (Raise OverflowError))
    by reflexivity.
  assert (Hnan : _format_qty S754_nan = Some (Raise ValueError))
    by reflexivity.
  split; [|split]; split.
  - exact Hfinite.
  - intros [s Hs]. destruct qty as [sign|sign| |sign m e]; try reflexivity.
    + rewrite Hinf in Hs. discriminate.
    + rewrite Hnan in Hs. discriminate.
  - intros [sign ->]. apply Hinf.
  - intros H. destruct qty as [sign|sign| |sign m e].
    + destruct (Hfinite eq_refl) as [s Hs]. congruence.
    + eauto.
    + rewrite Hnan in H. discriminate.
    + destruct (Hfinite eq_refl) as [s Hs]. congruence.
  - intros ->. apply Hnan.
  - intros H. destruct qty as [sign|sign| |sign m e].
    + destruct (Hfinite eq_refl) as [s Hs]. congruence.
    + rewrite Hinf in H. discriminate.
    + reflexivity.
    + destruct (Hfinite eq_refl) as [s Hs]. congruence.
Qed.

(** X9.  Whenever [int(qty)] has succeeded, the body of the [try] runs to
    its end without an exception: the handler with the two-decimal text is
    never entered. *)
Theorem format_try_never_raises (qty : float) (i : Z) :
  int_of_float qty = Ok i ->
  exists s, format_fraction qty = Some (Ok s).
Proof.
  intros Hi.
  assert (Hfin : is_finite qty = true)
    by (apply int_of_float_finite; eauto).
  destruct (Fraction_of_float_finite qty Hfin) as (x & Hx & HD & Hg).
  destruct (format_fraction_text qty Hx HD Hg) as (f & _ & _ & _ & ->).
  eauto.
Qed.

(** X10.  For a float that is neither zero nor integral, the text shows
    the fraction [f] that [Fraction(qty).limit_denominator(16)] returns: it
    is in lowest terms, has a denominator of at most 16, and no fraction
    with such a denominator is closer to the exact value of the float.  The
    text is [whole rest/denominator] when the numerator exceeds the
    denominator (only [whole] when nothing is left), otherwise [str(f)],
    which covers negative values. *)
Theorem format_qty_closest_fraction (qty : float) (i : Z) (x : Fraction) :
  float_eqb_int qty 0 = false ->
  int_of_float qty = Ok i ->
  float_eqb_int qty i = false ->
  Fraction_of_float qty = Ok x ->
  exists f,
    limit_denominator 16 x = Some (Ok f)
    /\ best_approximation 16 x f
    /\ Z.gcd (numerator f) (denominator f) = 1
    /\ _format_qty qty
       = Some (Ok (if denominator f <? numerator f then
                     if numerator f mod denominator f =? 0
                     then str_of_int (numerator f / denominator f)
                     else str_of_int (numerator f / denominator f)
                          ++ lit " "
                          ++ str_of_int (numerator f mod denominator f)
                          ++ lit "/" ++ str_of_int (denominator f)
                   else str_of_Fraction f)).
Proof.
  intros H0 Hi Hni Hx.
  assert (Hfin : is_finite qty = true)
    by (apply int_of_float_finite; eauto).
  destruct (Fraction_of_float_finite qty Hfin) as (x' & Hx' & HD & Hg).
  assert (x' = x) by congruence. subst x'.
  destruct (format_fraction_text qty Hx HD Hg)
    as (f & Hlim & Hbest & Hgcd & Hf).
  exists f. split; [exact Hlim|]. split; [exact Hbest|].
  split; [exact Hgcd|].
  unfold _format_qty. rewrite H0, Hi, Hni, Hf. reflexivity.
Qed.

End FormatterProperties.

Lemma format_qty_returns_on_finite_witness :
  exists s, _format_qty (S754_finite false 6755399441055744 (-52))
            = Some (Ok s).
Proof.
  apply (proj1 (proj1 (format_qty_returns_on_finite
                         (S754_finite false 6755399441055744 (-52))))).
  reflexivity.
Defined.

Lemma format_try_never_raises_witness :
  exists s, format_fraction (S754_finite false 6004799503160661 (-54))
            = Some (Ok s).
Proof.
  apply (@format_try_never_raises
           (S754_finite false 6004799503160661 (-54)) 0%Z).
  reflexivity.
Defined.

Lemma format_qty_closest_fraction_witness :
  exists f,
    limit_denominator 16 (mkFraction 3 2) = Some (Ok f)
    /\ best_approximation 16 (mkFraction 3 2) f
    /\ Z.gcd (numerator f) (denominator f) = 1%Z
    /\ _format_qty (S754_finite false 6755399441055744 (-52))
       = Some (Ok (if (denominator f <? numerator f)%Z then
                     if (numerator f mod denominator f =? 0)%Z
                     then str_of_int (numerator f / denominator f)
                     else str_of_int (numerator f / denominator f)
                          ++ lit " "
                          ++ str_of_int (numerator f mod denominator f)
                          ++ lit "/" ++ str_of_int (denominator f)
                   else str_of_Fraction f)).
Proof.
  apply (@format_qty_closest_fraction
           (S754_finite false 6755399441055744 (-52)) 1%Z (mkFraction 3 2));
    vm_compute; reflexivity.
Defined.

Section FormatterEmptyText.
Local Open Scope Z_scope.

Lemma str_of_int_nonempty n : str_of_int n <> [].
Proof.
  unfold str_of_int, lit. destruct (Z.to_int n) as [d|d]; destruct d;
    simpl; discriminate.
Qed.

Lemma str_of_Fraction_nonempty f : str_of_Fraction f <> [].
Proof.
  unfold str_of_Fraction. destruct (denominator f =? 1).
  - apply str_of_int_nonempty.
  - intros E. apply app_eq_nil in E. destruct E as [E _].
    now apply str_of_int_nonempty in E.
Qed.

Lemma float_eqb_int_zero qty :
  float_eqb_int qty 0 = true <-> exists s, qty = S754_zero s.
Proof.
  split; [|intros [s ->]; reflexivity].
  destruct qty as [s|s| |s m e]; try discriminate; [eauto|].
  unfold float_eqb_int, Fraction_of_float.
  destruct (0 <=? e) eqn:E; cbn [numerator denominator].
  - intros H. apply andb_true_iff in H. destruct H as [_ H].
    apply Z.eqb_eq in H. exfalso.
    apply Z.leb_le in E.
    assert (0 < 2 ^ e) by (apply Z.pow_pos_nonneg; lia).
    pose proof (Pos2Z.is_pos m).
    destruct s; cbn [cond_Zopp] in H; nia.
  - intros H. apply andb_true_iff in H. destruct H as [_ H].
    apply Z.eqb_eq in H. exfalso.
    apply Z.leb_gt in E.
    assert (Hp : 0 < 2 ^ (- e)) by (apply Z.pow_pos_nonneg; lia).
    destruct (@Fraction_of_pos (cond_Zopp s (Z.pos m)) _ Hp) as (Hd & He & _).
    rewrite H in He. pose proof (Pos2Z.is_pos m).
    destruct s; cbn [cond_Zopp] in *; nia.
Qed.

(** X11.  The formatter gives the empty text for a zero of either sign and
    for no other float; [grocery_list_ui] then shows the bare name. *)
Theorem format_qty_empty_iff_zero (qty : float) :
  _format_qty qty = Some (Ok []) <-> exists s, qty = S754_zero s.
Proof.
  split; [|intros [s ->]; reflexivity].
  intros H. apply float_eqb_int_zero.
  destruct (float_eqb_int qty 0) eqn:E0; [reflexivity|exfalso].
  unfold _format_qty in H. rewrite E0 in H.
  destruct (int_of_float qty) as [i|e] eqn:Hi; [|discriminate].
  destruct (float_eqb_int qty i).
  - injection H as H. now apply str_of_int_nonempty in H.
  - assert (Hfin : is_finite qty = true)
      by (apply int_of_float_finite; eauto).
    destruct (Fraction_of_float_finite qty Hfin) as (x & Hx & HD & Hg).
    destruct (format_fraction_text qty Hx HD Hg) as (f & _ & _ & _ & Hf).
    rewrite Hf in H. injection H as H.
    destruct (denominator f <? numerator f).
    + destruct (numerator f mod denominator f =? 0).
      * now apply str_of_int_nonempty in H.
      * apply app_eq_nil in H. destruct H as [H _].
        now apply str_of_int_nonempty in H.
    + now apply str_of_Fraction_nonempty in H.
Qed.

End FormatterEmptyText.

Lemma format_qty_empty_iff_zero_witness :
  _format_qty (S754_zero true) = Some (Ok []).
Proof.
  apply (proj2 (format_qty_empty_iff_zero (S754_zero true))).
  exists true. reflexivity.
Defined.

(* ================================================================= *)
(** * The JSON-LD helpers of the scraper *)

Lemma json_induction (P : json -> Prop) :
  P JNull -> (forall b, P (JBool b)) -> (forall n, P (JInt n)) ->
  (forall x, P (JFloat x)) -> (forall s, P (JStr s)) ->
  (forall l, Forall P l -> P (JList l)) ->
  (forall d, Forall (fun kv => P (snd kv)) d -> P (JDict d)) ->
  forall j, P j.
Proof.
  intros HN HB HI HF HS HL HD.
  fix IH 1. intros [ | b | n | x | s | l | d].
  - exact HN.
  - apply HB.
  - apply HI.
  - apply HF.
  - apply HS.
  - apply HL. induction l as [|a l IHl]; constructor; [apply IH|exact IHl].
  - apply HD. induction d as [|[k v] d IHd]; constructor;
      [apply IH|exact IHd].
Qed.

(** The loop over a list, one item at a time. *)
Lemma find_recipe_cons item l :
  _find_recipe (JList (item :: l))
  = match _find_recipe item with
    | Throw e => Throw e
    | Return result =>
        if truthy_result result then Return result
        else _find_recipe (JList l)
    end.
Proof. reflexivity. Qed.

(** The dict case, with the look-up of ["@graph"] as a [dict_get]. *)
Lemma find_recipe_dict d :
  _find_recipe (JDict d)
  = match type_mentions_recipe (schema_type_of d) with
    | Throw e => Throw e
    | Return true => Return (Some (JDict d))
    | Return false =>
        match dict_get d (lit "@graph") with
        | Some g => _find_recipe g
        | None => Return None
        end
    end.
Proof.
  cbn [_find_recipe].
  destruct (type_mentions_recipe (schema_type_of d)) as [[|]|e];
    try reflexivity.
  induction d as [|[k v] d IH]; [reflexivity|].
  cbn [dict_get]. destruct (str_eqb (lit "@graph") k); [reflexivity|exact IH].
Qed.

(** The items that give [None] are passed over. *)
Lemma find_recipe_skip pre l :
  (forall earlier, In earlier pre -> _find_recipe earlier = Return None) ->
  _find_recipe (JList (pre ++ l)) = _find_recipe (JList l).
Proof.
  induction pre as [|it pre IH]; intros Hpre; [reflexivity|].
  rewrite <- app_comm_cons, find_recipe_cons.
  rewrite (Hpre it) by now left. cbn [truthy_result].
  apply IH. intros earlier Hin. apply Hpre. now right.
Qed.

(** A dict whose type mentions "Recipe" is not empty. *)
Lemma recipe_dict_truthy d :
  type_mentions_recipe (schema_type_of d) = Return true ->
  truthy (JDict d) = true.
Proof. destruct d; [discriminate|reflexivity]. Qed.

(** X12.  [_find_recipe] returns a value other than [None] exactly when the
    search reaches a dict whose type mentions "Recipe", and it returns that
    dict: the data itself, or one met in the first item of a list that gives
    a result, or under the ["@graph"] key of a dict that is no recipe
    itself; a recipe under any other key is not found.  The dict is not
    empty, so the caller's [if recipe_data:] accepts it. *)
Theorem find_recipe_sound (data r : json) :
  _find_recipe data = Return (Some r)
  <-> exists d, r = JDict d
                /\ type_mentions_recipe (schema_type_of d) = Return true
                /\ truthy r = true
                /\ reached r data.
Proof.
  split.
  - revert r. induction data as [ | b | n | x | s | l IH | d IH]
      using json_induction; intros r H; try discriminate.
    + (* a list *)
      induction IH as [|item l Hitem _ IHl]; [discriminate|].
      rewrite find_recipe_cons in H.
      destruct (_find_recipe item) as [res|e] eqn:E; [|discriminate].
      destruct (truthy_result res) eqn:T.
      * injection H as ->.
        destruct (Hitem r eq_refl) as (d & -> & Ht & Hr & Hin).
        exists d. split; [reflexivity|]. split; [exact Ht|].
        split; [exact Hr|].
        apply (@reached_item _ (item :: l) [] item l);
          [reflexivity|intros ? []|exact Hin].
      * assert (Hnone : _find_recipe item = Return None).
        { destruct res as [v|]; [|exact E].
          destruct (Hitem v eq_refl) as (d & -> & _ & Hv & _).
          cbn [truthy_result] in T. congruence. }
        destruct (IHl H) as (d & -> & Ht & Hr & Hin).
        exists d. split; [reflexivity|]. split; [exact Ht|].
        split; [exact Hr|].
        inversion Hin as [|l' pre it post El Hpre Hit|]; subst.
        apply (@reached_item _ (item :: pre ++ it :: post)
                 (item :: pre) it post); [reflexivity| |exact Hit].
        intros earlier [<-|Hearlier]; [exact Hnone|now apply Hpre].
    + (* a dict *)
      rewrite find_recipe_dict in H.
      destruct (type_mentions_recipe (schema_type_of d)) as [[|]|e] eqn:T;
        [| |discriminate].
      * injection H as <-. exists d. split; [reflexivity|].
        split; [exact T|]. split; [now apply recipe_dict_truthy|constructor].
      * destruct (dict_get d (lit "@graph")) as [g|] eqn:G; [|discriminate].
        pose proof (dict_get_Some_In _ _ G) as Gin.
        rewrite Forall_forall in IH.
        destruct (IH _ Gin r H) as (d' & -> & Ht & Hr & Hin).
        exists d'. split; [reflexivity|]. split; [exact Ht|].
        split; [exact Hr|].
        eapply reached_graph; [exact T|exact G|exact Hin].
  - intros (d & -> & Ht & _ & Hin).
    induction Hin as [|l pre item post El Hpre Hit IH|d' g T G Hg IH].
    + rewrite find_recipe_dict, Ht. reflexivity.
    + subst l. rewrite (@find_recipe_skip pre (item :: post) Hpre).
      rewrite find_recipe_cons, IH.
      cbn [truthy_result]. now rewrite (@recipe_dict_truthy d Ht).
    + rewrite find_recipe_dict, T, G. exact IH.
Qed.

Lemma parse_instructions_cons item l :
  _parse_instructions (JList (item :: l))
  = steps_then (_parse_instructions (JList [item]))
               (_parse_instructions (JList l)).
Proof.
  cbn [_parse_instructions steps_then].
  match goal with
  | |- match ?here with _ => _ end = _ => destruct here as [steps|e]
  end; [|reflexivity].
  rewrite app_nil_r. reflexivity.
Qed.

Lemma steps_then_assoc a b c :
  steps_then (steps_then a b) c = steps_then a (steps_then b c).
Proof.
  destruct a as [x|e]; [|reflexivity].
  destruct b as [y|e]; [|reflexivity].
  destruct c as [z|e]; [|reflexivity].
  simpl. now rewrite app_assoc.
Qed.

(** X13.  The steps of two lists put together are the steps of the first
    followed by the steps of the second; if one of them raises, so does the
    whole, with the exception that is met first. *)
Theorem parse_instructions_app (a b : list json) :
  _parse_instructions (JList (a ++ b))
  = steps_then (_parse_instructions (JList a)) (_parse_instructions (JList b)).
Proof.
  induction a as [|item a IH].
  - cbn [app].
    change (_parse_instructions (JList [])) with (@Return (list json) []).
    cbn [steps_then]. destruct (_parse_instructions (JList b)); reflexivity.
  - simpl app. rewrite parse_instructions_cons, IH.
    rewrite (parse_instructions_cons item a). now rewrite steps_then_assoc.
Qed.

(** X14.  A [recipeInstructions] value that is a list of plain strings
    comes back as it is, and a single string as a list of that string. *)
Theorem parse_instructions_strings (steps : list str) (s : str) :
  _parse_instructions (JList (map JStr steps)) = Return (map JStr steps)
  /\ _parse_instructions (JStr s) = Return [JStr s].
Proof.
  split; [|reflexivity].
  induction steps as [|x steps IH]; [reflexivity|].
  cbn [map]. rewrite parse_instructions_cons, IH. reflexivity.
Qed.

(* ================================================================= *)
(** * The two weeks of the meal planner *)

Lemma map_result_Ok {A B} (f : A -> result B) (g : A -> B) l :
  (forall a, In a l -> f a = Ok (g a)) ->
  map_result f l = Ok (map g l).
Proof.
  induction l as [|a l IH]; intros H; [reflexivity|].
  cbn [map_result map]. rewrite (H a (or_introl eq_refl)). cbn [bind].
  rewrite IH; [reflexivity|]. intros a' Ha'. apply H. now right.
Qed.

Lemma map_result_inv {A B} (f : A -> result B) l bs :
  map_result f l = Ok bs ->
  List.length bs = List.length l
  /\ forall i a, nth_error l i = Some a ->
                 exists b, nth_error bs i = Some b /\ f a = Ok b.
Proof.
  revert bs. induction l as [|a l IH]; intros bs H.
  - injection H as <-. split; [reflexivity|]. intros [|i] a H; discriminate.
  - cbn [map_result] in H. destruct (f a) as [b|e] eqn:Fa; [|discriminate].
    cbn [bind] in H. destruct (map_result f l) as [bs'|e] eqn:M;
      [|discriminate].
    cbn [bind] in H. injection H as <-.
    destruct (IH bs' eq_refl) as [Hlen Hnth].
    split; [simpl; now rewrite Hlen|].
    intros [|i] a' Ha'.
    + injection Ha' as <-. exists b. auto.
    + apply (Hnth i a' Ha').
Qed.

Lemma map_result_raise {A B} (f : A -> result B) l e :
  (forall a e', f a = Raise e' -> e' = OverflowError) ->
  map_result f l = Raise e -> e = OverflowError.
Proof.
  intros Hf. induction l as [|a l IH]; [discriminate|].
  cbn [map_result]. destruct (f a) as [b|e'] eqn:Fa; cbn [bind].
  - destruct (map_result f l) as [bs|e'']; cbn [bind]; [discriminate|].
    intros [= <-]. now apply IH.
  - intros [= <-]. eapply Hf; eauto.
Qed.

Section TwoWeeks.
Local Open Scope Z_scope.

Lemma timedelta_raise days e : timedelta days = Raise e -> e = OverflowError.
Proof.
  unfold timedelta. destruct (999999999 <? Z.abs days); [|discriminate].
  now intros [= <-].
Qed.

Lemma date_add_raise d days e : date_add d days = Raise e -> e = OverflowError.
Proof.
  unfold date_add. destruct ((0 <? d + days) && (d + days <=? _MAXORDINAL));
    [discriminate|]. now intros [= <-].
Qed.

Lemma date_add_Ok d days o :
  date_add d days = Ok o <-> o = d + days /\ 0 < o <= _MAXORDINAL.
Proof.
  unfold date_add.
  destruct (Z.ltb_spec 0 (d + days)), (Z.leb_spec (d + days) _MAXORDINAL);
    simpl; split; try (intros [= <-]; lia); intros [-> ?]; try lia;
    reflexivity.
Qed.

Lemma timedelta_Ok days t :
  timedelta days = Ok t <-> t = days /\ Z.abs days <= 999999999.
Proof.
  unfold timedelta. destruct (Z.ltb_spec 999999999 (Z.abs days));
    split; try (intros [= <-]; lia); intros [-> ?]; try lia; reflexivity.
Qed.

Lemma weekday_range d : 0 <= weekday d < 7.
Proof. unfold weekday. apply Z.mod_pos_bound. lia. Qed.

(** X15.  When [_two_week_dates] returns, it returns 14 consecutive dates
    that start on the Monday of today's week moved by [offset] weeks; the
    date at index [i] falls on weekday [i mod 7], the day the planner
    prints above its column; and with offset 0 today is one of them. *)
Theorem two_week_dates_shape (today offset : Z) (dates : list Z) :
  _two_week_dates today offset = Ok dates ->
  List.length dates = 14%nat
  /\ (forall i, (i < 14)%nat ->
        nth i dates 0 = today - weekday today + 7 * offset + Z.of_nat i
        /\ weekday (nth i dates 0) = Z.of_nat i mod 7
        /\ 0 < nth i dates 0 <= _MAXORDINAL)
  /\ (offset = 0 -> In today dates).
Proof.
  unfold _two_week_dates. intros H.
  destruct (timedelta (weekday today)) as [back|e] eqn:Hb; [|discriminate].
  apply timedelta_Ok in Hb. destruct Hb as [-> _]. cbn [bind] in H.
  destruct (date_add today (- weekday today)) as [m0|e] eqn:Hm0;
    [|discriminate].
  apply date_add_Ok in Hm0. destruct Hm0 as [-> Hm0]. cbn [bind] in H.
  destruct (timedelta (7 * offset)) as [w|e] eqn:Hw; [|discriminate].
  apply timedelta_Ok in Hw. destruct Hw as [-> Hw]. cbn [bind] in H.
  destruct (date_add _ (7 * offset)) as [mon|e] eqn:Hmon; [|discriminate].
  apply date_add_Ok in Hmon. destruct Hmon as [Emon Hmon]. cbn [bind] in H.
  apply map_result_inv in H. destruct H as [Hlen Hnth].
  rewrite length_map, length_seq in Hlen.
  assert (Hi : forall i, (i < 14)%nat ->
            nth i dates 0 = mon + Z.of_nat i
            /\ 0 < nth i dates 0 <= _MAXORDINAL).
  { intros i Hi.
    destruct (Hnth i (Z.of_nat i)) as (b & Hb & Hf).
    { rewrite nth_error_map, nth_error_seq.
      destruct (Nat.ltb_spec i 14); [reflexivity|lia]. }
    destruct (timedelta (Z.of_nat i)) as [t|e] eqn:Ht; [|discriminate].
    apply timedelta_Ok in Ht. destruct Ht as [-> _]. cbn [bind] in Hf.
    apply date_add_Ok in Hf. destruct Hf as [-> Hr].
    rewrite (nth_error_nth _ _ 0 Hb). auto. }
  pose proof (weekday_range today) as Hwd.
  split; [exact Hlen|]. split.
  - intros i Hlt. destruct (Hi i Hlt) as [-> Hr].
    split; [lia|]. split; [|rewrite Emon in *; lia].
    rewrite Emon. unfold weekday in *.
    replace (today + - ((today + 6) mod 7) + 7 * offset + Z.of_nat i + 6)
      with (Z.of_nat i + (today + 6 - (today + 6) mod 7) + offset * 7)
      by ring.
    rewrite Z.mod_add by lia.
    rewrite (Z.div_mod (today + 6) 7) at 1 by lia.
    replace (Z.of_nat i + (7 * ((today + 6) / 7) + (today + 6) mod 7
                           - (today + 6) mod 7))
      with (Z.of_nat i + ((today + 6) / 7) * 7) by ring.
    now rewrite Z.mod_add by lia.
  - intros ->.
    assert (Hk : (Z.to_nat (weekday today) < 14)%nat) by lia.
    destruct (Hi _ Hk) as [Hn _].
    rewrite Z2Nat.id in Hn by lia.
    assert (E : nth (Z.to_nat (weekday today)) dates 0 = today) by lia.
    rewrite <- E. apply nth_In. lia.
Qed.

(** X16.  [_two_week_dates] returns exactly when the Monday of today's
    week, the number of days of the offset and the fourteen dates all stay
    within what [date] and [timedelta] hold; otherwise it raises
    [OverflowError]. *)
Theorem two_week_dates_returns (today offset : Z) :
  ((0 < today - weekday today <= _MAXORDINAL
    /\ Z.abs (7 * offset) <= 999999999
    /\ 0 < today - weekday today + 7 * offset
    /\ today - weekday today + 7 * offset + 13 <= _MAXORDINAL)
   <-> exists dates, _two_week_dates today offset = Ok dates)
  /\ forall e, _two_week_dates today offset = Raise e -> e = OverflowError.
Proof.
  pose proof (weekday_range today) as Hwd. split; [split|].
  - intros (H1 & H2 & H3 & H4).
    exists (map (fun i => today - weekday today + 7 * offset + i)
                (map Z.of_nat (seq 0 14))).
    unfold _two_week_dates.
    rewrite (proj2 (timedelta_Ok (weekday today) (weekday today)))
      by (split; [reflexivity|lia]).
    cbn [bind].
    rewrite (proj2 (date_add_Ok today (- weekday today)
                      (today - weekday today)))
      by (split; lia).
    cbn [bind].
    rewrite (proj2 (timedelta_Ok (7 * offset) (7 * offset)))
      by (split; [reflexivity|lia]).
    cbn [bind].
    rewrite (proj2 (date_add_Ok (today - weekday today) (7 * offset)
                      (today - weekday today + 7 * offset)))
      by (split; lia).
    cbn [bind].
    apply map_result_Ok. intros a Ha.
    apply in_map_iff in Ha. destruct Ha as (i & <- & Hi).
    apply in_seq in Hi.
    rewrite (proj2 (timedelta_Ok (Z.of_nat i) (Z.of_nat i)))
      by (split; [reflexivity|lia]).
    cbn [bind]. apply date_add_Ok. split; [reflexivity|lia].
  - intros [dates H]. unfold _two_week_dates in H.
    destruct (timedelta (weekday today)) as [back|e] eqn:Hb; [|discriminate].
    apply timedelta_Ok in Hb. destruct Hb as [-> _]. cbn [bind] in H.
    destruct (date_add today (- weekday today)) as [m0|e] eqn:Hm0;
      [|discriminate].
    apply date_add_Ok in Hm0. destruct Hm0 as [-> Hm0]. cbn [bind] in H.
    destruct (timedelta (7 * offset)) as [w|e] eqn:Hw; [|discriminate].
    apply timedelta_Ok in Hw. destruct Hw as [-> Hw]. cbn [bind] in H.
    destruct (date_add _ (7 * offset)) as [mon|e] eqn:Hmon; [|discriminate].
    apply date_add_Ok in Hmon. destruct Hmon as [Emon Hmon]. cbn [bind] in H.
    apply map_result_inv in H. destruct H as [_ Hnth].
    destruct (Hnth 13%nat 13) as (b & _ & Hf); [reflexivity|].
    change (timedelta 13) with (@Ok Z 13) in Hf. cbn [bind] in Hf.
    apply date_add_Ok in Hf. lia.
  - intros e. unfold _two_week_dates.
    destruct (timedelta (weekday today)) as [back|e1] eqn:Hb; cbn [bind];
      [|intros [= <-]; eapply timedelta_raise; eauto].
    destruct (date_add today (- back)) as [m0|e1] eqn:Hm0; cbn [bind];
      [|intros [= <-]; eapply date_add_raise; eauto].
    destruct (timedelta (7 * offset)) as [w|e1] eqn:Hw; cbn [bind];
      [|intros [= <-]; eapply timedelta_raise; eauto].
    destruct (date_add m0 w) as [mon|e1] eqn:Hmon; cbn [bind];
      [|intros [= <-]; eapply date_add_raise; eauto].
    apply map_result_raise. intros a e'.
    destruct (timedelta a) as [t|e1] eqn:Ht; cbn [bind];
      [apply date_add_raise|intros [= <-]; eapply timedelta_raise; eauto].
Qed.

End TwoWeeks.

Lemma find_recipe_sound_witness :
  exists d,
    JDict [(lit "@type", JStr (lit "Recipe"))] = JDict d
    /\ type_mentions_recipe (schema_type_of d) = Return true
    /\ truthy (JDict [(lit "@type", JStr (lit "Recipe"))]) = true
    /\ reached (JDict [(lit "@type", JStr (lit "Recipe"))])
               (JDict [(lit "@context", JStr (lit "https://schema.org"));
                       (lit "@graph",
                        JList [JDict [(lit "@type", JStr (lit "WebPage"))];
                               JDict [(lit "@type", JStr (lit "Recipe"))]])]).
Proof.
  apply (proj1 (find_recipe_sound _ _)). reflexivity.
Defined.

Lemma two_week_dates_shape_witness :
  In 738000%Z
     [737997; 737998; 737999; 738000; 738001; 738002; 738003;
      738004; 738005; 738006; 738007; 738008; 738009; 738010]%Z.
Proof.
  apply (proj2 (proj2 (@two_week_dates_shape 738000 0 _ eq_refl))).
  reflexivity.
Defined.

Lemma two_week_dates_returns_witness :
  exists dates, _two_week_dates 738000 (-1) = Ok dates.
Proof.
  apply (proj1 (proj1 (two_week_dates_returns 738000 (-1)))).
  repeat split; vm_compute; try reflexivity; discriminate.
Defined.
